(** * The chat relay: request building, routing and response extraction

    A shallow embedding of the relay route of the chat client (the file that
    defines [callDeepSeekAPI], [callOpenAIAPI], [callAnthropicAPI],
    [callGeminiAPI], [callCustomAPI], [getNestedValue] and [POST]) and the
    properties its design document states about it.

    Conventions.
    - A parsed JSON document is a [json]; a JS value of type [unknown] that
      may also be [undefined] is an [option json], [None] being [undefined].
    - A JS object used as a dictionary is a [gmap string _].
    - A computation that may [throw] is an [outcome]; a computation that may
      also call [fetch] is an [M], which records the calls in order. *)

From Stdlib Require Import QArith.
From Stdlib Require Import Ascii.
From stdpp Require Import base option strings list gmap pretty.

Local Open Scope string_scope.
Local Open Scope list_scope.

(** ** JS values *)

Module Js.

#[local] Unset Elimination Schemes.

(** What [JSON.parse] (hence [response.json()] and [req.json()]) yields.
    An object never holds the same key twice: the last one wins when
    parsing. *)
Inductive json : Type :=
  | JNull
  | JBool (b : bool)
  | JNum (q : Q)
  | JStr (s : string)
  | JArr (items : list json)
  | JObj (members : gmap string json).

#[local] Set Elimination Schemes.

(** [unknown]: a JSON value or [undefined]. *)
Abbreviation unknown := (option json).
Abbreviation undefined := (@None json).

(** ToBoolean. *)
Definition truthy (v : unknown) : bool :=
  match v with
  | None | Some JNull => false
  | Some (JBool b) => b
  | Some (JNum q) => negb (Qnum q =? 0)%Z
  | Some (JStr s) => negb (bool_decide (s = ""))
  | Some (JArr _) | Some (JObj _) => true
  end.

(** ToBoolean of a value of type [string | undefined]. *)
Definition truthy_string (s : option string) : bool :=
  match s with
  | Some s => negb (bool_decide (s = ""))
  | None => false
  end.

(** [a || b] on strings, [b] being a string. *)
Definition or_else (a : option string) (b : string) : string :=
  match a with
  | Some s => if bool_decide (s = "") then b else s
  | None => b
  end.

Definition typeof (v : unknown) : string :=
  match v with
  | None => "undefined"
  | Some JNull | Some (JArr _) | Some (JObj _) => "object"
  | Some (JBool _) => "boolean"
  | Some (JNum _) => "number"
  | Some (JStr _) => "string"
  end.

(** [v === null]. *)
Definition is_null (v : unknown) : bool :=
  match v with Some JNull => true | _ => false end.

(** [Array.isArray(v) && v.length > 0]. *)
Definition nonempty_array (v : unknown) : bool :=
  match v with Some (JArr (_ :: _)) => true | _ => false end.

(** An array index is a canonical numeric string: the decimal digits of
    [n], with [String(n) === part]. *)
Definition digit (c : ascii) : option N :=
  let n := N_of_ascii c in
  if ((48 <=? n) && (n <=? 57))%N then Some (n - 48)%N else None.

Fixpoint digits (s : string) (acc : N) : option N :=
  match s with
  | EmptyString => Some acc
  | String c rest =>
      match digit c with
      | Some d => digits rest (10 * acc + d)%N
      | None => None
      end
  end.

Definition array_index (part : string) : option nat :=
  match digits part 0%N with
  | Some n => if decide (pretty n = part) then Some (N.to_nat n) else None
  | None => None
  end.

(** The own property [k] of an object or array, [undefined] when there is
    none.  An array has its elements under their indices, and [length].
    Members inherited from [Object.prototype] and [Array.prototype] are left
    out: they are functions or prototype objects, none is a string and none
    leads to one, and the relay reads no such name.  A primitive has none of
    the names the relay reads. *)
Definition own (j : json) (k : string) : unknown :=
  match j with
  | JObj members => members !! k
  | JArr items =>
      if bool_decide (k = "length")
      then Some (JNum (inject_Z (Z.of_nat (length items))))
      else match array_index k with
           | Some i => items !! i
           | None => None
           end
  | _ => None
  end.

(** [k in j], for [j] an object or array.  A parsed document holds no
    [undefined] member, so a key is present exactly when its value is not
    [undefined]. *)
Definition has (k : string) (j : json) : bool :=
  match own j k with Some _ => true | None => false end.

(** [str.split(sep)] for a one-character separator: never empty, and the
    empty string splits into one empty segment. *)
Fixpoint split (sep : ascii) (s : string) : list string :=
  match s with
  | EmptyString => [""]
  | String c rest =>
      if decide (c = sep) then "" :: split sep rest
      else match split sep rest with
           | seg :: segs => String c seg :: segs
           | [] => [String c ""]
           end
  end.

(** A computation that returns or throws an [Error] with a message. *)
Inductive outcome (A : Type) : Type :=
  | Returned (a : A)
  | Thrown (message : string).
Arguments Returned {A} a.
Arguments Thrown {A} message.

#[export] Instance outcome_ret : MRet outcome := @Returned.
#[export] Instance outcome_bind : MBind outcome := λ A B f x,
  match x with
  | Returned a => f a
  | Thrown message => Thrown message
  end.

(** [v.k] and [v[k]]: a [TypeError] on [undefined] and [null]. *)
Definition prop (v : unknown) (k : string) : outcome unknown :=
  match v with
  | None | Some JNull => Thrown "Cannot read properties of null or undefined"
  | Some j => Returned (own j k)
  end.

#[global] Arguments own : simpl never.
#[global] Arguments prop : simpl never.
#[global] Arguments truthy : simpl never.
#[global] Arguments typeof : simpl never.

End Js.
Export Js.

(** ** The dotted-path extractor *)

(** The callback of the [reduce] in [getNestedValue]. *)
Definition step (acc : unknown) (part : string) : unknown :=
  match acc with
  | Some j =>
      if bool_decide (typeof acc = "object") && negb (is_null acc) && has part j
      then own j part
      else undefined
  | None => undefined
  end.

Definition getNestedValue (obj : unknown) (path : string) : option string :=
  if negb (truthy_string (Some path)) then None
  else if negb (bool_decide (typeof obj = "object")) || is_null obj then None
  else
    let value := foldl step obj (split "." path) in
    match value with
    | Some (JStr s) => Some s
    | _ => None
    end.

(** The traversal as the design document words it: the keys are taken one
    after the other, an object or array is entered by the key as it stands,
    and the walk stops with nothing at the first key that is missing or that
    meets a value that cannot be entered. *)
Fixpoint walk (keys : list string) (v : json) : option json :=
  match keys with
  | [] => Some v
  | k :: keys' =>
      match v with
      | JObj _ | JArr _ => own v k ≫= walk keys'
      | _ => None
      end
  end.

Definition as_string (v : json) : option string :=
  match v with JStr s => Some s | _ => None end.

(** ** Messages, configurations and outbound calls *)

Inductive Role : Type := user | assistant | system.

Definition role_name (r : Role) : string :=
  match r with
  | user => "user"
  | assistant => "assistant"
  | system => "system"
  end.

Record ApiChatMessage : Type := { role : Role; content : string }.

Module Config.
Record t : Type := {
  id : string;
  name : string;
  endpoint : string;
  apiKey : string;
  apiKeyHeaderName : option string;
  apiKeyPrefix : option string;
  modelParamName : option string;
  messagesParamName : option string;
  responsePath : option string
}.
End Config.
Abbreviation CustomApiConfigForBackend := Config.t.

(** The second argument of [fetch]; [body] is the value handed to
    [JSON.stringify]. *)
Record FetchInit : Type := {
  url : string;
  method : string;
  headers : gmap string string;
  body : json
}.

(** What an adapter gets out of [fetch], the [response.ok] test and
    [response.json()] taken together: the parsed body, or the [Error] it
    throws (the call is rejected, the status is not 2xx, or the body of a 2xx
    reply is not JSON).  The wording of that error is not modelled. *)
Inductive Fetched : Type :=
  | Parsed (data : json)
  | Failed (message : string).

Abbreviation Provider := (FetchInit → Fetched).

(** The five functions that call [fetch]. *)
Inductive Adapter : Type := DeepSeek | OpenAI | Anthropic | Gemini | Custom.

(** One call to [fetch], and the adapter that made it. *)
Record Call : Type := { adapter : Adapter; init : FetchInit }.

(** A computation of the relay: the calls to [fetch] it made, in order, and
    what it returned or threw. *)
Definition M (A : Type) : Type := (list Call * outcome A)%type.

#[export] Instance M_ret : MRet M := λ A a, ([], Returned a).

#[export] Instance M_bind : MBind M := λ A B f x,
  match x with
  | (calls, Returned a) => let '(calls', r) := f a in (calls ++ calls', r)
  | (calls, Thrown message) => (calls, Thrown message)
  end.

#[export] Instance M_fmap : FMap M := λ A B f x, a ← x; mret (f a).

Definition lift {A} (x : outcome A) : M A := ([], x).

Definition request (who : Adapter) (stub : Provider) (init : FetchInit) : M json :=
  ([{| adapter := who; init := init |}],
   match stub init with
   | Parsed data => Returned data
   | Failed message => Thrown message
   end).

(** [obj[k] = v] on an object literal.  Assigning to [__proto__] sets the
    prototype (or nothing at all when [v] is a primitive) and adds no own
    property, so neither [fetch] nor [JSON.stringify] sees it. *)
Definition assign {V} (k : string) (v : V) (obj : gmap string V) : gmap string V :=
  if bool_decide (k = "__proto__") then obj else <[k := v]> obj.

(** ** The adapters *)

(** [messages.map(m => ({ role: m.role, content: m.content }))]. *)
Definition role_content (m : ApiChatMessage) : json :=
  JObj {[ "role" := JStr (role_name (role m)); "content" := JStr (content m) ]}.

Definition deepseek_init
    (apiKey : string) (messages : list ApiChatMessage) (model : option string) : FetchInit :=
  {|
    url := "https://api.deepseek.com/chat/completions";
    method := "POST";
    headers := {[ "Content-Type" := "application/json";
                  "Authorization" := "Bearer " +:+ apiKey ]};
    body := JObj {[ "model" := JStr (or_else model "deepseek-chat");
                    "messages" := JArr (role_content <$> messages) ]}
  |}.

Definition callDeepSeekAPI (stub : Provider)
    (apiKey : string) (messages : list ApiChatMessage) (model : option string) : M json :=
  request DeepSeek stub (deepseek_init apiKey messages model).

Definition openai_init
    (apiKey : string) (messages : list ApiChatMessage) (model : option string) : FetchInit :=
  {|
    url := "https://api.openai.com/v1/chat/completions";
    method := "POST";
    headers := {[ "Content-Type" := "application/json";
                  "Authorization" := "Bearer " +:+ apiKey ]};
    body := JObj {[ "model" := JStr (or_else model "gpt-3.5-turbo");
                    "messages" := JArr (role_content <$> messages) ]}
  |}.

Definition callOpenAIAPI (stub : Provider)
    (apiKey : string) (messages : list ApiChatMessage) (model : option string) : M json :=
  request OpenAI stub (openai_init apiKey messages model).

(** The callback of the [filter] in [callAnthropicAPI], with the variable
    [systemPrompt] it assigns and the array [filter] is building. *)
Definition sift (st : string * list ApiChatMessage) (msg : ApiChatMessage)
    : string * list ApiChatMessage :=
  let '(systemPrompt, kept) := st in
  match role msg with
  | system => (content msg, kept)
  | _ => (systemPrompt, kept ++ [msg])
  end.

Definition anthropic_turn (msg : ApiChatMessage) : json :=
  JObj {[ "role" := JStr (match role msg with assistant => "assistant" | _ => "user" end);
          "content" := JStr (content msg) ]}.

Definition anthropic_body (messages : list ApiChatMessage) (model : option string)
    : gmap string json :=
  let '(systemPrompt, kept) := foldl sift ("", []) messages in
  let anthropicMessages := anthropic_turn <$> kept in
  let body : gmap string json :=
    {[ "model" := JStr (or_else model "claude-3-sonnet-20240229");
       "max_tokens" := JNum (inject_Z 1024);
       "messages" := JArr anthropicMessages ]} in
  if truthy_string (Some systemPrompt)
  then <[ "system" := JStr systemPrompt ]> body
  else body.

Definition anthropic_init
    (apiKey : string) (messages : list ApiChatMessage) (model : option string) : FetchInit :=
  {|
    url := "https://api.anthropic.com/v1/messages";
    method := "POST";
    headers := {[ "Content-Type" := "application/json";
                  "x-api-key" := apiKey;
                  "anthropic-version" := "2023-06-01" ]};
    body := JObj (anthropic_body messages model)
  |}.

Definition callAnthropicAPI (stub : Provider)
    (apiKey : string) (messages : list ApiChatMessage) (model : option string) : M json :=
  request Anthropic stub (anthropic_init apiKey messages model).

Definition gemini_turn (msg : ApiChatMessage) : json :=
  JObj {[ "role" := JStr (match role msg with
                          | assistant => "model"
                          | system => "user"
                          | r => role_name r
                          end);
          "parts" := JArr [JObj {[ "text" := JStr (content msg) ]}] ]}.

Definition gemini_init
    (apiKey : string) (messages : list ApiChatMessage) (model : option string) : FetchInit :=
  let geminiHistory := gemini_turn <$> messages in
  let currentModel := or_else model "gemini-1.5-flash-latest" in
  {|
    url := "https://generativelanguage.googleapis.com/v1beta/models/"
             +:+ currentModel +:+ ":generateContent?key=" +:+ apiKey;
    method := "POST";
    headers := {[ "Content-Type" := "application/json" ]};
    body := JObj {[ "contents" := JArr geminiHistory ]}
  |}.

Definition callGeminiAPI (stub : Provider)
    (apiKey : string) (messages : list ApiChatMessage) (model : option string) : M json :=
  request Gemini stub (gemini_init apiKey messages model).

(** [default ""] reads an optional string where the code has just tested
    that it is there. *)
Definition custom_headers (customConfig : CustomApiConfigForBackend) : gmap string string :=
  let apiKey := Config.apiKey customConfig in
  let apiKeyHeaderName := Config.apiKeyHeaderName customConfig in
  let apiKeyPrefix := Config.apiKeyPrefix customConfig in
  let headers : gmap string string := {[ "Content-Type" := "application/json" ]} in
  if truthy_string apiKeyHeaderName && truthy_string (Some apiKey)
  then assign (default "" apiKeyHeaderName) (or_else apiKeyPrefix "" +:+ apiKey) headers
  else if truthy_string (Some apiKey)
  then assign "Authorization" ("Bearer " +:+ apiKey) headers
  else headers.

Definition custom_body (customConfig : CustomApiConfigForBackend)
    (messages : list ApiChatMessage) (model : option string) : gmap string json :=
  let modelParamName := Config.modelParamName customConfig in
  let messagesParamName := Config.messagesParamName customConfig in
  let body : gmap string json := ∅ in
  let effectiveMessagesParamName := or_else messagesParamName "messages" in
  let body := assign effectiveMessagesParamName (JArr (role_content <$> messages)) body in
  if truthy_string modelParamName && truthy_string model
  then assign (default "" modelParamName) (JStr (default "" model)) body
  else if truthy_string model
  then assign "model" (JStr (default "" model)) body
  else body.

Definition custom_init (customConfig : CustomApiConfigForBackend)
    (messages : list ApiChatMessage) (model : option string) : FetchInit :=
  {|
    url := Config.endpoint customConfig;
    method := "POST";
    headers := custom_headers customConfig;
    body := JObj (custom_body customConfig messages model)
  |}.

Definition callCustomAPI (stub : Provider)
    (customConfig : CustomApiConfigForBackend)
    (messages : list ApiChatMessage) (model : option string) : M json :=
  request Custom stub (custom_init customConfig messages model).

(** ** The relay entry point *)

(** An element of [messages] as it arrives: the relay reads [sender] and
    [text]; [others] are the members it does not read (a client may send the
    message's id or timestamp along). *)
Record InboundMessage : Type := {
  sender : string;
  text : string;
  others : gmap string json
}.

Module Request.
Record t : Type := {
  provider : option string;
  apiKey : option string;
  messages : option (list InboundMessage);
  model : option string;
  customApiConfig : option CustomApiConfigForBackend
}.
End Request.
Abbreviation RequestBody := Request.t.

(** [NextResponse.json(payload, { status })]. *)
Record NextResponse : Type := { status : nat; payload : gmap string json }.

Definition error_response (message : string) (code : nat) : NextResponse :=
  {| status := code; payload := {[ "error" := JStr message ]} |}.

Definition success (aiMessageText : string) (responseData : json) : NextResponse :=
  {| status := 200;
     payload := {[ "aiResponse" := JStr aiMessageText; "rawResponse" := responseData ]} |}.

Definition toApiMessage (msg : InboundMessage) : ApiChatMessage :=
  {| role := if bool_decide (sender msg = "user") then user else assistant;
     content := text msg |}.

(** The text of [content[0].text], once [content] is known to be a non-empty
    array; [aiMessageText] is kept when the item has no such string. *)
Definition first_content_text (content : unknown) (aiMessageText : string) : outcome string :=
  firstContentItem ← prop content "0";
  if truthy firstContentItem then
    text ← prop firstContentItem "text";
    match text with
    | Some (JStr s) => mret s
    | _ => mret aiMessageText
    end
  else mret aiMessageText.

(** The text of [choices[0].message.content], once [choices] is known to be a
    non-empty array. *)
Definition first_choice_text (choices : unknown) (aiMessageText : string) : outcome string :=
  firstChoice ← prop choices "0";
  if truthy firstChoice && bool_decide (typeof firstChoice = "object") then
    message ← prop firstChoice "message";
    if truthy message && bool_decide (typeof message = "object") then
      content ← prop message "content";
      match content with
      | Some (JStr s) => mret s
      | _ => mret aiMessageText
      end
    else mret aiMessageText
  else mret aiMessageText.

(** [responseData && typeof responseData === 'object' &&
     Array.isArray(responseData.k) && responseData.k.length > 0]. *)
Definition has_items (responseData : json) (k : string) : outcome bool :=
  if truthy (Some responseData) && bool_decide (typeof (Some responseData) = "object")
  then v ← prop (Some responseData) k; mret (nonempty_array v)
  else mret false.

Definition anthropic_branch (responseData : json) (aiMessageText : string) : outcome string :=
  ok ← has_items responseData "content";
  if ok : bool then
    content ← prop (Some responseData) "content";
    first_content_text content aiMessageText
  else mret aiMessageText.

Definition openai_branch (responseData : json) (aiMessageText : string) : outcome string :=
  ok ← has_items responseData "choices";
  if ok : bool then
    choices ← prop (Some responseData) "choices";
    first_choice_text choices aiMessageText
  else mret aiMessageText.

Definition gemini_branch (responseData : json) (aiMessageText : string) : outcome string :=
  ok ← has_items responseData "candidates";
  if ok : bool then
    candidates ← prop (Some responseData) "candidates";
    firstCandidate ← prop candidates "0";
    if truthy firstCandidate && bool_decide (typeof firstCandidate = "object") then
      content ← prop firstCandidate "content";
      if truthy content && bool_decide (typeof content = "object") then
        parts ← prop content "parts";
        if truthy content && nonempty_array parts then
          firstPart ← prop parts "0";
          if truthy firstPart && bool_decide (typeof firstPart = "object") then
            text ← prop firstPart "text";
            match text with
            | Some (JStr s) => mret s
            | _ => mret aiMessageText
            end
          else mret aiMessageText
        else mret aiMessageText
      else mret aiMessageText
    else mret aiMessageText
  else mret aiMessageText.

(** The last branch of the ladder: taken by a custom provider only. *)
Definition custom_branch (responseData : json) (aiMessageText : string) : outcome string :=
  ok ← has_items responseData "choices";
  if ok : bool then
    choices ← prop (Some responseData) "choices";
    first_choice_text choices aiMessageText
  else
    ok' ← has_items responseData "content";
    if ok' : bool then
      content ← prop (Some responseData) "content";
      first_content_text content aiMessageText
    else mret aiMessageText.

Definition parse_failure : string := "Error: Could not parse AI response.".
Definition format_mismatch : string := "Error: Custom API response format mismatch.".

(** The part of [POST] after the call: from [let aiMessageText] to the value
    given to [aiResponse]. *)
Definition extract (provider : string) (isCustomProvider : bool)
    (customApiConfig : option CustomApiConfigForBackend) (responseData : json)
    : outcome string :=
  let aiMessageText := parse_failure in
  let responsePath := customApiConfig ≫= Config.responsePath in
  if isCustomProvider && truthy_string responsePath then
    match getNestedValue (Some responseData) (default "" responsePath) with
    | Some extractedText => mret extractedText
    | None => mret format_mismatch
    end
  else if bool_decide (provider = "anthropic") then
    anthropic_branch responseData aiMessageText
  else if bool_decide (provider = "openai") || bool_decide (provider = "deepseek") then
    openai_branch responseData aiMessageText
  else if bool_decide (provider = "gemini") then
    gemini_branch responseData aiMessageText
  else if isCustomProvider then
    custom_branch responseData aiMessageText
  else mret aiMessageText.

(** The [try] block of [POST].  While the adapter is being chosen, [inl] is a
    response returned on the spot and [inr] the body an adapter came back
    with. *)
Definition handle (stub : Provider) (req : RequestBody) : M NextResponse :=
  match Request.provider req, Request.messages req with
  | Some provider, Some messages =>
      if negb (truthy_string (Some provider)) then
        mret (error_response "Missing provider or messages" 400)
      else if negb (bool_decide (is_Some (Request.customApiConfig req)))
              && negb (truthy_string (Request.apiKey req)) then
        mret (error_response "Missing apiKey" 400)
      else
        let apiMessages := toApiMessage <$> messages in
        let requestedModel := Request.model req in
        let isCustomProvider :=
          match Request.customApiConfig req with
          | Some customApiConfig => bool_decide (Config.id customApiConfig = provider)
          | None => false
          end in
        let builtin : M (NextResponse + json) :=
          match Request.apiKey req with
          | Some apiKey =>
              if truthy_string (Some apiKey) then
                if bool_decide (provider = "deepseek") then
                  inr <$> callDeepSeekAPI stub apiKey apiMessages requestedModel
                else if bool_decide (provider = "openai") then
                  inr <$> callOpenAIAPI stub apiKey apiMessages requestedModel
                else if bool_decide (provider = "anthropic") then
                  inr <$> callAnthropicAPI stub apiKey apiMessages requestedModel
                else if bool_decide (provider = "gemini") then
                  inr <$> callGeminiAPI stub apiKey apiMessages requestedModel
                else
                  mret (inl (error_response "Unsupported or misconfigured AI provider" 400))
              else mret (inl (error_response "Provider configuration error" 400))
          | None => mret (inl (error_response "Provider configuration error" 400))
          end in
        called ←
          match Request.customApiConfig req with
          | Some customApiConfig =>
              if isCustomProvider
              then inr <$> callCustomAPI stub customApiConfig apiMessages requestedModel
              else builtin
          | None => builtin
          end;
        match called with
        | inl early => mret early
        | inr responseData =>
            aiMessageText ←
              lift (extract provider isCustomProvider (Request.customApiConfig req) responseData);
            mret (success aiMessageText responseData)
        end
  | _, _ => mret (error_response "Missing provider or messages" 400)
  end.

(** [POST]: the calls it made and its response.  Whatever the [try] block
    throws is an [Error], and its message goes out with status 500. *)
Definition POST (stub : Provider) (req : RequestBody) : list Call * NextResponse :=
  match handle stub req with
  | (calls, Returned response) => (calls, response)
  | (calls, Thrown message) => (calls, error_response message 500)
  end.

(** ** Fixtures *)

(** [{data:[{text:"ok"}]}]. *)
Definition data_fixture : json :=
  JObj {[ "data" := JArr [JObj {[ "text" := JStr "ok" ]}] ]}.

(** [{choices:[{message:{content:"hello"}}]}]. *)
Definition openai_fixture : json :=
  JObj {[ "choices" := JArr [JObj {[ "message" := JObj {[ "content" := JStr "hello" ]} ]}] ]}.

(** [{content:[{text:"hi"}]}]. *)
Definition anthropic_fixture : json :=
  JObj {[ "content" := JArr [JObj {[ "text" := JStr "hi" ]}] ]}.

(** [{candidates:[{content:{parts:[{text:"4"}]}}]}]. *)
Definition gemini_fixture : json :=
  JObj {[ "candidates" :=
            JArr [JObj {[ "content" :=
                            JObj {[ "parts" := JArr [JObj {[ "text" := JStr "4" ]}] ]} ]}] ]}.

(** ** Reference definitions *)

(** The rules as the design document words them: [content[0].text],
    [choices[0].message.content] and [candidates[0].content.parts[0].text],
    the indexed values being non-empty arrays. *)
Definition first_item (v : json) : option json :=
  match v with JArr (x :: _) => Some x | _ => None end.

Definition rule_anthropic (v : json) : option string :=
  content ← own v "content"; item ← first_item content;
  text ← own item "text"; as_string text.

Definition rule_openai (v : json) : option string :=
  choices ← own v "choices"; choice ← first_item choices;
  message ← own choice "message"; content ← own message "content"; as_string content.

Definition rule_gemini (v : json) : option string :=
  candidates ← own v "candidates"; candidate ← first_item candidates;
  content ← own candidate "content"; parts ← own content "parts";
  part ← first_item parts; text ← own part "text"; as_string text.

(** Whether [POST] takes the request for a custom provider's, and the
    response path it then reads. *)
Definition custom_selected (req : RequestBody) : bool :=
  match Request.provider req, Request.customApiConfig req with
  | Some provider, Some cfg => bool_decide (Config.id cfg = provider)
  | _, _ => false
  end.

Definition selected_path (req : RequestBody) : option string :=
  if custom_selected req
  then Request.customApiConfig req ≫= Config.responsePath
  else None.

(** The shape the relay expects of the answer to a request, by the rules
    above: the configured path of a custom provider; else the shape of the
    provider named; else, for a custom provider, the OpenAI shape and then the
    Anthropic one. *)
Definition expected_shape (req : RequestBody) (data : json) : option string :=
  let provider := default "" (Request.provider req) in
  if truthy_string (selected_path req) then
    getNestedValue (Some data) (default "" (selected_path req))
  else if bool_decide (provider = "anthropic") then rule_anthropic data
  else if bool_decide (provider = "openai") || bool_decide (provider = "deepseek")
  then rule_openai data
  else if bool_decide (provider = "gemini") then rule_gemini data
  else if custom_selected req then
    match rule_openai data with
    | Some s => Some s
    | None => rule_anthropic data
    end
  else None.

(** The text sent in place of the answer when none is found. *)
Definition sentinel (req : RequestBody) : string :=
  if truthy_string (selected_path req) then format_mismatch else parse_failure.

(** The system prompt as the design document words it: the content of the
    last system message, and nothing when there is none. *)
#[global] Instance Role_eq_dec : EqDecision Role.
Proof. solve_decision. Defined.

Definition last_system (messages : list ApiChatMessage) : string :=
  default "" (last (content <$> filter (λ m, role m = system) messages)).

(** The log of a computation. *)
Definition calls {A} (x : M A) : list Call := x.1.

(** What [POST] makes of one call: the call, and the response built from the
    provider's answer. *)
Definition reply (who : Adapter) (stub : Provider) (i : FetchInit)
    (provider : string) (isCustomProvider : bool)
    (customApiConfig : option CustomApiConfigForBackend) : list Call * NextResponse :=
  ([{| adapter := who; init := i |}],
   match stub i with
   | Parsed responseData =>
       match extract provider isCustomProvider customApiConfig responseData with
       | Returned aiMessageText => success aiMessageText responseData
       | Thrown message => error_response message 500
       end
   | Failed message => error_response message 500
   end).

(** A custom provider whose header name was left empty. *)
Definition empty_name_config : CustomApiConfigForBackend :=
  {| Config.id := "c1"; Config.name := "mine"; Config.endpoint := "https://llm.example/v1";
     Config.apiKey := "k"; Config.apiKeyHeaderName := Some ""; Config.apiKeyPrefix := Some "Token ";
     Config.modelParamName := None; Config.messagesParamName := None;
     Config.responsePath := None |}.

(** A history with two system messages. *)
Definition two_prompts : list ApiChatMessage :=
  [ {| role := system; content := "a" |}; {| role := user; content := "q" |};
    {| role := system; content := "b" |}; {| role := assistant; content := "r" |} ].

Definition question : InboundMessage :=
  {| sender := "user"; text := "2+2?"; others := ∅ |}.

(** The same message as a client that sends its id and timestamp along
    would post it. *)
Definition stamped_question : InboundMessage :=
  {| sender := "user"; text := "2+2?";
     others := {[ "id" := JStr "msg-1714000000000";
                  "timestamp" := JNum (inject_Z 1714000000000) ]} |}.

(** [{provider:"gemini", messages:[{sender:"user",text:"2+2?"}], apiKey:"k"}]. *)
Definition gemini_request : RequestBody :=
  {| Request.provider := Some "gemini"; Request.apiKey := Some "k";
     Request.messages := Some [question]; Request.model := None;
     Request.customApiConfig := None |}.

Definition stamped_request : RequestBody :=
  {| Request.provider := Some "gemini"; Request.apiKey := Some "k";
     Request.messages := Some [stamped_question]; Request.model := None;
     Request.customApiConfig := None |}.

(** A provider with a key and a configuration made for another id. *)
Definition reserved_request (provider : string) : RequestBody :=
  {| Request.provider := Some provider; Request.apiKey := Some "k";
     Request.messages := Some [question]; Request.model := None;
     Request.customApiConfig := Some empty_name_config |}.

Definition no_key_request : RequestBody :=
  {| Request.provider := Some "openai"; Request.apiKey := None;
     Request.messages := Some [question]; Request.model := None;
     Request.customApiConfig := None |}.

(** A custom provider whose answers are read at [data.text]. *)
Definition path_config : CustomApiConfigForBackend :=
  {| Config.id := "c1"; Config.name := "mine"; Config.endpoint := "https://llm.example/v1";
     Config.apiKey := "k"; Config.apiKeyHeaderName := None; Config.apiKeyPrefix := None;
     Config.modelParamName := None; Config.messagesParamName := None;
     Config.responsePath := Some "data.text" |}.

Definition path_request : RequestBody :=
  {| Request.provider := Some "c1"; Request.apiKey := None;
     Request.messages := Some [question]; Request.model := None;
     Request.customApiConfig := Some path_config |}.

(** The same provider with no response path configured. *)
Definition plain_request : RequestBody :=
  {| Request.provider := Some "c1"; Request.apiKey := None;
     Request.messages := Some [question]; Request.model := None;
     Request.customApiConfig := Some empty_name_config |}.

(** ** The relay, from the request as it arrives *)


(** ** What an adapter makes of the provider's reply *)

(** The [Response] of [fetch], as far as an adapter reads it.  [json_body] is
    what [response.json()] settles to, a rejection being a body that is not
    JSON; [text_body] is what [response.text()] settles to when it is called
    after that rejection. *)
Module Http.
Record t : Type := {
  ok : bool;
  status : nat;
  statusText : string;
  json_body : outcome json;
  text_body : outcome string
}.

(** A body is read once.  [response.json()] reads the body before it parses
    it, so after its rejection [response.text()] finds the body used and
    rejects too, with a [TypeError]; only a reply that came without any body
    is read again, as the empty text. *)
Definition read_once (response : t) : Prop :=
  match json_body response, text_body response with
  | Thrown _, Returned raw => raw = ""
  | _, _ => True
  end.
End Http.

(** [fetch] rejects (no connection, no such host) or resolves to a
    response. *)
Inductive Exchange : Type :=
  | Rejected (message : string)
  | Responded (response : Http.t).

(** [v?.k]. *)
Definition opt_prop (v : unknown) (k : string) : unknown :=
  match v with
  | None | Some JNull => undefined
  | Some j => own j k
  end.

(** [a || b]. *)
Definition or_value (a b : unknown) : unknown := if truthy a then a else b.

Section Settle.

(** The string a template literal makes of a value that is not a string
    (a number, a boolean, an array, an object). *)
Variable ToString : json → string.

Definition interpolate (v : unknown) : string :=
  match v with
  | Some (JStr s) => s
  | Some j => ToString j
  | None => "undefined"
  end.

(** The head of the message an adapter throws on a reply that is not ok. *)
Definition failure_head (who : Adapter) (name : string) : string :=
  match who with
  | DeepSeek => "DeepSeek API request failed with status "
  | OpenAI => "OpenAI API request failed with status "
  | Anthropic => "Anthropic API request failed with status "
  | Gemini => "Gemini API request failed with status "
  | Custom => "Custom API request to " +:+ name +:+ " failed with status "
  end.

(** [errorData]: the body, or what the adapter puts in its place when the
    body is not JSON. *)
Definition errorData_of (who : Adapter) (response : Http.t) : outcome json :=
  match Http.json_body response with
  | Returned data => Returned data
  | Thrown _ =>
      match who with
      | Custom =>
          message ← Http.text_body response;
          mret (JObj {[ "error" := JObj {[ "message" := JStr message ]} ]})
      | Anthropic =>
          mret (JObj {[ "error" :=
                          JObj {[ "message" := JStr (Http.statusText response);
                                  "type" := JStr "unknown_error" ]} ]})
      | _ =>
          mret (JObj {[ "error" := JObj {[ "message" := JStr (Http.statusText response) ]} ]})
      end
  end.

(** The text after the colon: [typedError.error?.message ||
    response.statusText], with [typedError.error?.type] in between for
    Anthropic. *)
Definition failure_detail (who : Adapter) (response : Http.t) (typedError : json)
    : outcome string :=
  error ← prop (Some typedError) "error";
  let message := opt_prop error "message" in
  let statusText := Some (JStr (Http.statusText response)) in
  mret (interpolate
          (match who with
           | Anthropic => or_value (or_value message (opt_prop error "type")) statusText
           | _ => or_value message statusText
           end)).

(** The part of an adapter after [fetch]: what it returns, or the message
    of what it throws.  [name] is [customConfig.name]. *)
Definition settle (who : Adapter) (name : string) (exchange : Exchange) : Fetched :=
  match exchange with
  | Rejected message => Failed message
  | Responded response =>
      if negb (Http.ok response) then
        match errorData ← errorData_of who response;
              failure_detail who response errorData with
        | Returned detail =>
            Failed (failure_head who name +:+ pretty (Http.status response)
                      +:+ ": " +:+ detail)
        | Thrown message => Failed message
        end
      else
        match Http.json_body response with
        | Returned data => Parsed data
        | Thrown message => Failed message
        end
  end.

End Settle.

(** ** The client's store *)

(** The state the context provider holds and the functions it hands to the
    page.  A function that queues an update ([setSessions(prev => ...)]) is a
    function from the state before to the state after; what it reads from the
    render it was made in (the [sessions] or [customApiConfigs] of that
    render) is an argument of its own.  [Date.now()] and the random suffix of
    an id are arguments too. *)

Inductive Sender : Type := from_user | from_ai.

Definition sender_name (s : Sender) : string :=
  match s with
  | from_user => "user"
  | from_ai => "ai"
  end.

Module Message.
Record t : Type := { id : string; text : string; sender : Sender; timestamp : Z }.
End Message.

Module ChatSession.
Record t : Type := { id : string; name : string; messages : list Message.t; createdAt : Z }.
End ChatSession.

(** The page's [CustomApiConfig] has the members of
    [CustomApiConfigForBackend]. *)
Abbreviation CustomApiConfig := Config.t.

Record AppState : Type := {
  sessions : list ChatSession.t;
  currentSessionId : option string;
  apiKeys : gmap string string;
  customApiConfigs : list CustomApiConfig
}.

Definition initial_state : AppState :=
  {| sessions := []; currentSessionId := None; apiKeys := ∅; customApiConfigs := [] |}.

(** [array.find(p)]. *)
Definition find {A} (P : A → Prop) `{∀ x, Decision (P x)} (l : list A) : option A :=
  snd <$> list_find P l.

Definition createNewSession (sessions_seen : list ChatSession.t) (now now' : Z)
    (prev : AppState) : AppState :=
  let newSession :=
    {| ChatSession.id := "session-" +:+ pretty now;
       ChatSession.name := "Chat " +:+ pretty (length sessions_seen + 1);
       ChatSession.messages := [];
       ChatSession.createdAt := now' |} in
  {| sessions := sessions prev ++ [newSession];
     currentSessionId := Some (ChatSession.id newSession);
     apiKeys := apiKeys prev;
     customApiConfigs := customApiConfigs prev |}.

Definition append_message (sessionId : string) (message : Message.t)
    (session : ChatSession.t) : ChatSession.t :=
  if bool_decide (ChatSession.id session = sessionId)
  then {| ChatSession.id := ChatSession.id session;
          ChatSession.name := ChatSession.name session;
          ChatSession.messages := ChatSession.messages session ++ [message];
          ChatSession.createdAt := ChatSession.createdAt session |}
  else session.

Definition addMessageToSession (sessionId : string) (message : Message.t)
    (prev : AppState) : AppState :=
  {| sessions := append_message sessionId message <$> sessions prev;
     currentSessionId := currentSessionId prev;
     apiKeys := apiKeys prev;
     customApiConfigs := customApiConfigs prev |}.

Definition with_apiKey (key : string) (c : CustomApiConfig) : CustomApiConfig :=
  {| Config.id := Config.id c; Config.name := Config.name c;
     Config.endpoint := Config.endpoint c; Config.apiKey := key;
     Config.apiKeyHeaderName := Config.apiKeyHeaderName c;
     Config.apiKeyPrefix := Config.apiKeyPrefix c;
     Config.modelParamName := Config.modelParamName c;
     Config.messagesParamName := Config.messagesParamName c;
     Config.responsePath := Config.responsePath c |}.

Definition updateApiKey (customApiConfigs_seen : list CustomApiConfig)
    (provider key : string) (prev : AppState) : AppState :=
  let isCustom :=
    bool_decide (Exists (λ c, Config.id c = provider) customApiConfigs_seen) in
  if isCustom then
    {| sessions := sessions prev;
       currentSessionId := currentSessionId prev;
       apiKeys := apiKeys prev;
       customApiConfigs :=
         (λ c, if bool_decide (Config.id c = provider) then with_apiKey key c else c)
           <$> customApiConfigs prev |}
  else
    {| sessions := sessions prev;
       currentSessionId := currentSessionId prev;
       apiKeys := <[ provider := key ]> (apiKeys prev);
       customApiConfigs := customApiConfigs prev |}.

Definition getCustomApiConfig (st : AppState) (configIdOrName : string)
    : option CustomApiConfig :=
  find (λ c, Config.id c = configIdOrName ∨ Config.name c = configIdOrName)
    (customApiConfigs st).

(** The names of the members every object has from [Object.prototype].
    [apiKeys] is a plain object, so [apiKeys[provider]] finds one of them, a
    function or the prototype itself and no string, when [apiKeys] has no
    member of its own under such a name. *)
Definition Object_prototype_members : list string :=
  [ "constructor"; "hasOwnProperty"; "isPrototypeOf"; "propertyIsEnumerable";
    "toLocaleString"; "toString"; "valueOf"; "__proto__";
    "__defineGetter__"; "__defineSetter__"; "__lookupGetter__"; "__lookupSetter__" ].

(** [apiKeys[provider]] is read here among the members of [apiKeys] itself,
    the keys that were stored: this is the function of the page for every
    provider outside [Object_prototype_members], and for one of these too
    once a key is stored under it.  A property that rests on a key being
    absent takes the provider outside that list. *)
Definition getApiKey (st : AppState) (provider : string) : option string :=
  match find (λ c, Config.id c = provider ∨ Config.name c = provider)
          (customApiConfigs st) with
  | Some customConfig => Some (Config.apiKey customConfig)
  | None => apiKeys st !! provider
  end.

Definition with_id (id : string) (c : CustomApiConfig) : CustomApiConfig :=
  {| Config.id := id; Config.name := Config.name c;
     Config.endpoint := Config.endpoint c; Config.apiKey := Config.apiKey c;
     Config.apiKeyHeaderName := Config.apiKeyHeaderName c;
     Config.apiKeyPrefix := Config.apiKeyPrefix c;
     Config.modelParamName := Config.modelParamName c;
     Config.messagesParamName := Config.messagesParamName c;
     Config.responsePath := Config.responsePath c |}.

(** [configData] comes without an id; the one of the record given is not
    read.  [suffix] is [Math.random().toString(36).substring(2, 9)]. *)
Definition addCustomApiConfig (now : Z) (suffix : string) (configData : CustomApiConfig)
    (prev : AppState) : AppState :=
  let newConfig := with_id ("custom-" +:+ pretty now +:+ "-" +:+ suffix) configData in
  {| sessions := sessions prev;
     currentSessionId := currentSessionId prev;
     apiKeys := apiKeys prev;
     customApiConfigs := customApiConfigs prev ++ [newConfig] |}.

Definition updateCustomApiConfig (updatedConfig : CustomApiConfig)
    (prev : AppState) : AppState :=
  {| sessions := sessions prev;
     currentSessionId := currentSessionId prev;
     apiKeys := apiKeys prev;
     customApiConfigs :=
       (λ config, if bool_decide (Config.id config = Config.id updatedConfig)
                  then updatedConfig else config)
         <$> customApiConfigs prev |}.

Definition removeCustomApiConfig (configId : string) (prev : AppState) : AppState :=
  {| sessions := sessions prev;
     currentSessionId := currentSessionId prev;
     apiKeys := apiKeys prev;
     customApiConfigs := filter (λ config, Config.id config ≠ configId) (customApiConfigs prev) |}.

Definition setCurrentSessionId (sessionId : option string) (prev : AppState) : AppState :=
  {| sessions := sessions prev;
     currentSessionId := sessionId;
     apiKeys := apiKeys prev;
     customApiConfigs := customApiConfigs prev |}.

(** What [localStorage] holds under the four keys, nothing standing for no
    item or an empty one: the values the texts of the first three parse to,
    and the text of the fourth. *)
Record Stored : Type := {
  storedKeys : option (gmap string string);
  storedCustomConfigs : option (list CustomApiConfig);
  storedSessions : option (list ChatSession.t);
  storedCurrentSessionId : option string
}.

(** The effect that runs once on mount, from the initial state. *)
Definition load (stored : Stored) (now now' : Z) : AppState :=
  let st := initial_state in
  let st :=
    match storedKeys stored with
    | Some keys =>
        {| sessions := sessions st; currentSessionId := currentSessionId st;
           apiKeys := keys; customApiConfigs := customApiConfigs st |}
    | None => st
    end in
  let st :=
    match storedCustomConfigs stored with
    | Some configs =>
        {| sessions := sessions st; currentSessionId := currentSessionId st;
           apiKeys := apiKeys st; customApiConfigs := configs |}
    | None => st
    end in
  let st :=
    match storedSessions stored with
    | Some parsedSessions =>
        let st :=
          {| sessions := parsedSessions; currentSessionId := currentSessionId st;
             apiKeys := apiKeys st; customApiConfigs := customApiConfigs st |} in
        if truthy_string (storedCurrentSessionId stored)
           && bool_decide (is_Some (find (λ s, Some (ChatSession.id s)
                                              = storedCurrentSessionId stored)
                                      parsedSessions))
        then setCurrentSessionId (storedCurrentSessionId stored) st
        else match parsedSessions with
             | first :: _ => setCurrentSessionId (Some (ChatSession.id first)) st
             | [] => st
             end
    | None => st
    end in
  if bool_decide (length (sessions initial_state) = 0)
     && negb (bool_decide (is_Some (storedSessions stored)))
  then createNewSession (sessions initial_state) now now' st
  else st.

(** The three effects that write the state back.  What is written is the
    [JSON.stringify] of strings, integers, and lists and records of them, and
    parses back to the same. *)
Definition persist (st : AppState) : Stored :=
  {| storedKeys := Some (apiKeys st);
     storedCustomConfigs := Some (customApiConfigs st);
     storedSessions := Some (sessions st);
     storedCurrentSessionId :=
       if truthy_string (currentSessionId st) then currentSessionId st else None |}.

(** ** The chat page *)

(** The page's own state, as far as sending a message reads and writes it. *)
Record PageState : Type := {
  userInput : string;
  isLoading : bool;
  activeProvider : option string;
  activeModel : option string
}.

(** What the page gets from [fetch('/api/chat')]: a rejection, a reply that
    is ok and whose body is read at the type [{ aiResponse?: string }] the
    page gives it, or a reply that is not ok, with its body. *)
Inductive Served : Type :=
  | Unreachable (message : string)
  | Answered (data : outcome (option string))
  | Declined (status : nat) (statusText : string) (errorData : outcome json).

(** What sending a message leaves behind: the requests posted, and the two
    states. *)
Record Sent : Type := {
  posted : list RequestBody;
  store : AppState;
  page : PageState
}.

Section Page.

(** The translation function of the page, and [String.prototype.trim]. *)
Variables (t : string → string) (trim : string → string).

(** [currentChatHistoryForAPI.map(m => ({ sender: m.sender, text: m.text }))]. *)
Definition toWire (m : Message.t) : InboundMessage :=
  {| sender := sender_name (Message.sender m); text := Message.text m; others := ∅ |}.

(** The message of the error thrown for a reply that is not ok. *)
Definition declined_message (status : nat) (statusText : string) (body : outcome json)
    : string :=
  let errorData :=
    match body with
    | Returned data => data
    | Thrown _ => JObj {[ "error" := JStr statusText ]}
    end in
  let errorMessage := t "API request failed with status" +:+ " " +:+ pretty status in
  if bool_decide (typeof (Some errorData) = "object") && negb (is_null (Some errorData))
     && has "error" errorData
  then
    match own errorData "error" with
    | Some (JStr errorVal) => errorVal
    | Some errorVal =>
        if bool_decide (typeof (Some errorVal) = "object") && negb (is_null (Some errorVal))
           && has "message" errorVal
        then match own errorVal "message" with
             | Some (JStr message) => message
             | _ => errorMessage
             end
        else errorMessage
    | None => errorMessage
    end
  else errorMessage.

(** The [try] block of [handleSendMessage], from the lookup of the key on:
    the request it posts, if any, and the text of the AI's message or the
    message of the error thrown. *)
Definition exchange_with_relay (st : AppState) (activeProvider : string)
    (activeModel : option string) (history : list Message.t)
    (backend : RequestBody → Served) : list RequestBody * outcome string :=
  let providerConfig := getCustomApiConfig st activeProvider in
  let providerApiKey :=
    match providerConfig with
    | Some config => Some (Config.apiKey config)
    | None => getApiKey st activeProvider
    end in
  if negb (truthy_string providerApiKey) then
    ([], Thrown (t "API key for" +:+ " " +:+ activeProvider +:+ " "
                   +:+ t "is not configured" +:+ "."))
  else
    let requestBody :=
      {| Request.provider := Some activeProvider;
         Request.messages := Some (toWire <$> history);
         Request.apiKey := match providerConfig with
                           | Some _ => None
                           | None => providerApiKey
                           end;
         Request.customApiConfig := providerConfig;
         Request.model := if truthy_string activeModel then activeModel else None |} in
    ([requestBody],
     match backend requestBody with
     | Unreachable message => Thrown message
     | Declined status statusText errorData =>
         Thrown (declined_message status statusText errorData)
     | Answered (Thrown message) => Thrown message
     | Answered (Returned aiResponse) =>
         Returned (if truthy_string aiResponse
                   then default "" aiResponse
                   else t "Error: No response text from AI")
     end).

(** The message made of the input.  [now i] is what the [i]-th call of
    [Date.now()] returns. *)
Definition user_message (pg : PageState) (now : nat → Z) : Message.t :=
  {| Message.id := "msg-" +:+ pretty (now 0%nat);
     Message.text := userInput pg;
     Message.sender := from_user;
     Message.timestamp := now 1%nat |}.

(** The message made of the answer, or of the error caught. *)
Definition answer_message (now : nat → Z) (result : outcome string) : Message.t :=
  match result with
  | Returned text =>
      {| Message.id := "msg-" +:+ pretty (now 2%nat + 1)%Z;
         Message.text := text;
         Message.sender := from_ai;
         Message.timestamp := now 3%nat |}
  | Thrown messageText =>
      {| Message.id := "err-" +:+ pretty (now 2%nat);
         Message.text := t "Error" +:+ ": " +:+ messageText;
         Message.sender := from_ai;
         Message.timestamp := now 3%nat |}
  end.

(** [currentChatHistoryForAPI]: read off the [sessions] of the render, which
    do not have the new message yet. *)
Definition history_for_api (st : AppState) (sessionId : string) (userMessage : Message.t)
    : list Message.t :=
  match find (λ s, ChatSession.id s = sessionId) (sessions st) with
  | Some currentSession => ChatSession.messages currentSession ++ [userMessage]
  | None => [userMessage]
  end.

Definition handleSendMessage (st : AppState) (pg : PageState) (now : nat → Z)
    (backend : RequestBody → Served) : Sent :=
  if negb (truthy_string (Some (trim (userInput pg))))
     || negb (truthy_string (currentSessionId st))
     || negb (truthy_string (activeProvider pg))
     || isLoading pg
  then {| posted := []; store := st; page := pg |}
  else
    let sessionId := default "" (currentSessionId st) in
    let provider := default "" (activeProvider pg) in
    let userMessage := user_message pg now in
    let currentChatHistoryForAPI := history_for_api st sessionId userMessage in
    let '(requests, result) :=
      exchange_with_relay st provider (activeModel pg) currentChatHistoryForAPI backend in
    {| posted := requests;
       store := addMessageToSession sessionId (answer_message now result)
                  (addMessageToSession sessionId userMessage st);
       page := {| userInput := ""; isLoading := false;
                  activeProvider := activeProvider pg;
                  activeModel := activeModel pg |} |}.

End Page.

(** The relay's response as the page's [fetch] sees it. *)
Definition over_http (statusText : string) (response : NextResponse) : Served :=
  if bool_decide (200 ≤ status response ≤ 299)%nat
  then Answered
         (Returned (match payload response !! "aiResponse" with
                    | Some (JStr aiResponse) => Some aiResponse
                    | _ => None
                    end))
  else Declined (status response) statusText (Returned (JObj (payload response))).

(** The page talking to the relay, the relay to the providers behind
    [stub]. *)
Definition relay (stub : Provider) (statusText : string) (req : RequestBody) : Served :=
  over_http statusText (POST stub req).2.

(** ** Further fixtures *)

(** Some string for a value that is not one. *)
Definition shown_as (v : json) : string := "[object Object]".

(** 401 with [{error:{message:"bad key"}}]. *)
Definition unauthorized : Http.t :=
  {| Http.ok := false; Http.status := 401; Http.statusText := "Unauthorized";
     Http.json_body := Returned (JObj {[ "error" := JObj {[ "message" := JStr "bad key" ]} ]});
     Http.text_body := Thrown "Body is unusable" |}.

(** 502 with a page of HTML: not JSON, and used once it has been read. *)
Definition bad_gateway : Http.t :=
  {| Http.ok := false; Http.status := 502; Http.statusText := "Bad Gateway";
     Http.json_body := Thrown "Unexpected token < in JSON at position 0";
     Http.text_body := Thrown "Body is unusable" |}.

(** 500 with the body [null]. *)
Definition null_reply : Http.t :=
  {| Http.ok := false; Http.status := 500; Http.statusText := "Internal Server Error";
     Http.json_body := Returned JNull;
     Http.text_body := Thrown "Body is unusable" |}.

(** A custom provider that takes the model under [messages]. *)
Definition clashing_config : CustomApiConfigForBackend :=
  {| Config.id := "c2"; Config.name := "clash"; Config.endpoint := "https://llm.example/v2";
     Config.apiKey := "k"; Config.apiKeyHeaderName := Some "X-API-Key";
     Config.apiKeyPrefix := None;
     Config.modelParamName := Some "messages"; Config.messagesParamName := None;
     Config.responsePath := None |}.

(** A custom provider that took the name of a built-in one. *)
Definition named_openai : CustomApiConfig :=
  {| Config.id := "custom-1"; Config.name := "openai";
     Config.endpoint := "https://llm.example/v1";
     Config.apiKey := "ck"; Config.apiKeyHeaderName := None; Config.apiKeyPrefix := None;
     Config.modelParamName := None; Config.messagesParamName := None;
     Config.responsePath := None |}.

(** A custom provider whose id is the name of a built-in one. *)
Definition gemini_twin : CustomApiConfigForBackend :=
  {| Config.id := "gemini"; Config.name := "twin"; Config.endpoint := "https://llm.example/v1";
     Config.apiKey := "k"; Config.apiKeyHeaderName := None; Config.apiKeyPrefix := None;
     Config.modelParamName := None; Config.messagesParamName := None;
     Config.responsePath := None |}.

Definition twin_request : RequestBody :=
  {| Request.provider := Some "gemini"; Request.apiKey := None;
     Request.messages := Some [question]; Request.model := None;
     Request.customApiConfig := Some gemini_twin |}.

Definition anthropic_request : RequestBody :=
  {| Request.provider := Some "anthropic"; Request.apiKey := Some "k";
     Request.messages := Some [question]; Request.model := None;
     Request.customApiConfig := None |}.

(** [{choices:[{}], content:[{text:"hi"}]}]. *)
Definition mixed_fixture : json :=
  JObj {[ "choices" := JArr [JObj ∅];
          "content" := JArr [JObj {[ "text" := JStr "hi" ]}] ]}.

Definition greeting : Message.t :=
  {| Message.id := "msg-1"; Message.text := "hi"; Message.sender := from_user;
     Message.timestamp := 1 |}.

Definition chat1 : ChatSession.t :=
  {| ChatSession.id := "session-1"; ChatSession.name := "Chat 1";
     ChatSession.messages := [greeting]; ChatSession.createdAt := 1 |}.

Definition chat2 : ChatSession.t :=
  {| ChatSession.id := "session-2"; ChatSession.name := "Chat 2";
     ChatSession.messages := []; ChatSession.createdAt := 2 |}.

(** A store with a key for OpenAI. *)
Definition store_with_key : AppState :=
  {| sessions := [chat1; chat2]; currentSessionId := Some "session-1";
     apiKeys := {[ "openai" := "k" ]}; customApiConfigs := [] |}.

(** The same with a custom provider named [openai]. *)
Definition store_shadowed : AppState :=
  {| sessions := [chat1; chat2]; currentSessionId := Some "session-1";
     apiKeys := {[ "openai" := "k" ]}; customApiConfigs := [named_openai] |}.

(** The same with no key at all. *)
Definition store_without_key : AppState :=
  {| sessions := [chat1; chat2]; currentSessionId := Some "session-1";
     apiKeys := ∅; customApiConfigs := [] |}.

Definition typing : PageState :=
  {| userInput := "2+2?"; isLoading := false;
     activeProvider := Some "openai"; activeModel := None |}.

Definition clock (i : nat) : Z := (1714000000000 + Z.of_nat i)%Z.

Definition plain (s : string) : string := s.

(** What the page posts for [typing] over [store_with_key]. *)
Definition typed_request : RequestBody :=
  {| Request.provider := Some "openai"; Request.apiKey := Some "k";
     Request.messages :=
       Some [ {| sender := "user"; text := "hi"; others := ∅ |};
              {| sender := "user"; text := "2+2?"; others := ∅ |} ];
     Request.model := None; Request.customApiConfig := None |}.

(** * Properties *)

(** ** The dotted path *)

Section Path.

Implicit Types (v w : json) (acc : unknown) (keys : list string) (path part : string).

Lemma split_cons sep s : ∃ seg segs, split sep s = seg :: segs.
Proof.
  induction s as [|c s (seg & segs & IH)]; simpl; [by eauto|].
  case_decide; [by eauto|]. rewrite IH. by eauto.
Qed.

Lemma step_undefined keys : foldl step undefined keys = undefined.
Proof. by induction keys. Qed.

Lemma step_own v part : step (Some v) part = match v with
                                              | JObj _ | JArr _ => own v part
                                              | _ => undefined
                                              end.
Proof.
  unfold step, has. destruct v; try done; cbn; by destruct (own _ part).
Qed.

Lemma foldl_step_walk keys v : foldl step (Some v) keys = walk keys v.
Proof.
  revert v. induction keys as [|k keys IH]; intros v; [done|].
  cbn [foldl walk]. rewrite step_own.
  destruct v; try apply step_undefined.
  - destruct (own (JArr items) k) as [w|]; [apply IH | apply step_undefined].
  - destruct (own (JObj members) k) as [w|]; [apply IH | apply step_undefined].
Qed.

Lemma walk_app keys keys' v : walk (keys ++ keys') v = walk keys v ≫= walk keys'.
Proof.
  revert v. induction keys as [|k keys IH]; intros v; [done|].
  simpl. destruct v; try done.
  - destruct (own (JArr items) k); [apply IH | done].
  - destruct (own (JObj members) k); [apply IH | done].
Qed.

Lemma getNestedValue_eq v path :
  getNestedValue (Some v) path =
    if decide (path = "") then None else walk (split "." path) v ≫= as_string.
Proof.
  unfold getNestedValue. cbn -[split]. case_decide as Hp.
  - by rewrite bool_decide_eq_true_2.
  - rewrite bool_decide_eq_false_2 by done. simpl.
    destruct (split_cons "." path) as (seg & segs & Hs).
    destruct v; cbn -[split]; try (by rewrite Hs);
      rewrite foldl_step_walk;
      by destruct (walk _ _) as [[]|].
Qed.

(** C8: [getNestedValue] reads the path as the keys between its dots and
    enters the response key by key, a numeric key being the index of an array
    and a plain key of an object ([walk]); it gives [undefined] as soon as a
    key is missing or meets a value that cannot be entered, it gives
    [undefined] when the value reached is not a string, and a string it gives
    is the very string reached. *)
Theorem getNestedValue_traversal v path :
  (getNestedValue (Some v) path =
     if decide (path = "") then None else walk (split "." path) v ≫= as_string)
  ∧ (∀ before part after w,
       split "." path = before ++ part :: after →
       walk before v = Some w → own w part = None →
       getNestedValue (Some v) path = None)
  ∧ (∀ w, walk (split "." path) v = Some w → as_string w = None →
       getNestedValue (Some v) path = None)
  ∧ (∀ s, getNestedValue (Some v) path = Some s →
       walk (split "." path) v = Some (JStr s))
  ∧ (∀ x, own (JArr [x]) "0" = Some x ∧ own (JObj {[ "0" := x ]}) "0" = Some x).
Proof.
  split_and!.
  - apply getNestedValue_eq.
  - intros before part after w Hs Hw Hown. rewrite getNestedValue_eq.
    case_decide; [done|]. rewrite Hs, walk_app, Hw. simpl.
    destruct w; try done; cbn; by rewrite Hown.
  - intros w Hw Hs. rewrite getNestedValue_eq. case_decide; [done|]. by rewrite Hw.
  - intros s. rewrite getNestedValue_eq. case_decide; [done|].
    destruct (walk _ _) as [[]|]; simpl; congruence.
  - intros x. split; [done | apply lookup_singleton_eq].
Qed.

(** The path of the design document's example resolves, a missing index does
    not, and neither does a path that ends on an object. *)
Lemma getNestedValue_traversal_witness :
  getNestedValue (Some data_fixture) "data.0.text" = Some "ok"
  ∧ getNestedValue (Some data_fixture) "data.1.text" = None
  ∧ getNestedValue (Some data_fixture) "data.0" = None
  ∧ walk (split "." "data.0.text") data_fixture = Some (JStr "ok").
Proof.
  split_and!.
  - by rewrite (proj1 (getNestedValue_traversal data_fixture "data.0.text")).
  - destruct (getNestedValue_traversal data_fixture "data.1.text") as (_ & H & _).
    apply (H ["data"] "1" ["text"] (JArr [JObj {[ "text" := JStr "ok" ]}])); reflexivity.
  - destruct (getNestedValue_traversal data_fixture "data.0") as (_ & _ & H & _).
    apply (H (JObj {[ "text" := JStr "ok" ]})); reflexivity.
  - destruct (getNestedValue_traversal data_fixture "data.0.text") as (_ & _ & _ & H & _).
    apply H. reflexivity.
Defined.

End Path.

(** ** The extraction rules *)

Section Rules.

Implicit Types (v : json) (u : unknown) (d : string).

Lemma own_primitive v k :
  bool_decide (typeof (Some v) = "object") = false → own v k = None.
Proof. by destruct v. Qed.

Lemma own_falsy v k : truthy (Some v) = false → own v k = None.
Proof. by destruct v. Qed.

Lemma prop_some v k : v ≠ JNull → prop (Some v) k = Returned (own v k).
Proof. by destruct v. Qed.

Lemma prop_truthy v k : truthy (Some v) = true → prop (Some v) k = Returned (own v k).
Proof. by destruct v. Qed.

Lemma has_items_eq v k :
  has_items v k = Returned (nonempty_array (own v k)).
Proof.
  unfold has_items.
  destruct (truthy (Some v)) eqn:Ht; cbn.
  - destruct (bool_decide (typeof (Some v) = "object")) eqn:Ho; cbn.
    + by rewrite prop_truthy.
    + by rewrite own_primitive.
  - by rewrite own_falsy.
Qed.

Lemma nonempty_array_first u :
  nonempty_array u = true → ∃ x items, u = Some (JArr (x :: items)).
Proof. destruct u as [[| | | |[|x items]|]|]; try done. by eauto. Qed.

Lemma nonempty_array_none {B} u (f : json → option B) :
  nonempty_array u = false → (c ← u; x ← first_item c; f x) = None.
Proof. by destruct u as [[| | | |[|x items]|]|]. Qed.

(** [x && typeof x === 'object'] before a member of [x] is read: when the
    test fails the member is not there either. *)
Ltac enter x :=
  destruct (truthy (Some x)) eqn:?; cbn; [|by rewrite own_falsy];
  destruct (bool_decide (typeof (Some x) = "object")) eqn:?; cbn;
    [|by rewrite own_primitive];
  rewrite prop_truthy by done; cbn.

Lemma first_content_text_eq x items d :
  first_content_text (Some (JArr (x :: items))) d
  = Returned (default d (own x "text" ≫= as_string)).
Proof.
  unfold first_content_text. rewrite prop_some by done.
  change (own (JArr (x :: items)) "0") with (Some x). cbn.
  destruct (truthy (Some x)) eqn:Ht.
  - rewrite prop_truthy by done. cbn. by destruct (own x "text") as [[]|].
  - by rewrite own_falsy.
Qed.

Lemma first_choice_text_eq x items d :
  first_choice_text (Some (JArr (x :: items))) d
  = Returned (default d (message ← own x "message"; own message "content" ≫= as_string)).
Proof.
  unfold first_choice_text. rewrite prop_some by done.
  change (own (JArr (x :: items)) "0") with (Some x). cbn.
  enter x.
  destruct (own x "message") as [message|]; [|done].
  enter message. by destruct (own message "content") as [[]|].
Qed.

Lemma anthropic_branch_eq v d :
  anthropic_branch v d = Returned (default d (rule_anthropic v)).
Proof.
  unfold anthropic_branch, rule_anthropic. rewrite has_items_eq. cbn.
  destruct (nonempty_array (own v "content")) eqn:Hn.
  - destruct (nonempty_array_first _ Hn) as (x & items & Hc). rewrite Hc.
    assert (prop (Some v) "content" = Returned (Some (JArr (x :: items)))) as ->.
    { rewrite <- Hc. apply prop_some. intros ->. done. }
    cbn. apply first_content_text_eq.
  - by rewrite nonempty_array_none.
Qed.

Lemma openai_branch_eq v d :
  openai_branch v d = Returned (default d (rule_openai v)).
Proof.
  unfold openai_branch, rule_openai. rewrite has_items_eq. cbn.
  destruct (nonempty_array (own v "choices")) eqn:Hn.
  - destruct (nonempty_array_first _ Hn) as (x & items & Hc). rewrite Hc.
    assert (prop (Some v) "choices" = Returned (Some (JArr (x :: items)))) as ->.
    { rewrite <- Hc. apply prop_some. intros ->. done. }
    cbn. apply first_choice_text_eq.
  - by rewrite nonempty_array_none.
Qed.

Lemma gemini_branch_eq v d :
  gemini_branch v d = Returned (default d (rule_gemini v)).
Proof.
  unfold gemini_branch, rule_gemini. rewrite has_items_eq. cbn.
  destruct (nonempty_array (own v "candidates")) eqn:Hn; [|by rewrite nonempty_array_none].
  destruct (nonempty_array_first _ Hn) as (x & items & Hc). rewrite Hc.
  assert (prop (Some v) "candidates" = Returned (Some (JArr (x :: items)))) as ->.
  { rewrite <- Hc. apply prop_some. intros ->. done. }
  cbn. rewrite prop_some by done.
  change (own (JArr (x :: items)) "0") with (Some x). cbn.
  enter x.
  destruct (own x "content") as [content|]; [|done].
  enter content.
  destruct (nonempty_array (own content "parts")) eqn:Hp; [|by rewrite nonempty_array_none].
  destruct (nonempty_array_first _ Hp) as (y & parts & Hparts). rewrite Hparts. cbn.
  rewrite prop_some by done.
  change (own (JArr (y :: parts)) "0") with (Some y). cbn.
  enter y. by destruct (own y "text") as [[]|].
Qed.

Lemma custom_branch_eq v d :
  custom_branch v d =
    Returned (if nonempty_array (own v "choices")
              then default d (rule_openai v)
              else default d (rule_anthropic v)).
Proof.
  unfold custom_branch.
  pose proof (openai_branch_eq v d) as Ho. pose proof (anthropic_branch_eq v d) as Ha.
  unfold openai_branch, anthropic_branch in Ho, Ha.
  rewrite (has_items_eq v "choices") in *. rewrite (has_items_eq v "content") in Ha.
  cbn in *.
  destruct (nonempty_array (own v "choices")); [done|].
  rewrite (has_items_eq v "content"). done.
Qed.

(** What [extract] computes, in terms of the rules: it never throws. *)
Lemma extract_eq provider isCustomProvider customApiConfig v :
  extract provider isCustomProvider customApiConfig v =
    Returned
      (let responsePath := customApiConfig ≫= Config.responsePath in
       if isCustomProvider && truthy_string responsePath then
         default format_mismatch (getNestedValue (Some v) (default "" responsePath))
       else if bool_decide (provider = "anthropic") then
         default parse_failure (rule_anthropic v)
       else if bool_decide (provider = "openai") || bool_decide (provider = "deepseek") then
         default parse_failure (rule_openai v)
       else if bool_decide (provider = "gemini") then
         default parse_failure (rule_gemini v)
       else if isCustomProvider then
         if nonempty_array (own v "choices")
         then default parse_failure (rule_openai v)
         else default parse_failure (rule_anthropic v)
       else parse_failure).
Proof.
  unfold extract. cbv zeta.
  destruct (isCustomProvider && truthy_string _).
  { by destruct (getNestedValue _ _). }
  destruct (bool_decide (provider = "anthropic")); [apply anthropic_branch_eq|].
  destruct (bool_decide (provider = "openai") || bool_decide (provider = "deepseek"));
    [apply openai_branch_eq|].
  destruct (bool_decide (provider = "gemini")); [apply gemini_branch_eq|].
  destruct isCustomProvider; [apply custom_branch_eq | done].
Qed.

End Rules.

(** ** The Anthropic adapter *)

Section Anthropic.

Implicit Types (messages kept : list ApiChatMessage) (msg : ApiChatMessage).

Lemma foldl_sift messages systemPrompt kept :
  foldl sift (systemPrompt, kept) messages =
    (default systemPrompt (last (content <$> filter (λ m, role m = system) messages)),
     kept ++ filter (λ m, role m ≠ system) messages).
Proof.
  revert systemPrompt kept.
  induction messages as [|msg messages IH]; intros systemPrompt kept.
  { by rewrite app_nil_r. }
  cbn [foldl]. unfold sift at 2. destruct (role msg) eqn:Hr; rewrite IH.
  - rewrite filter_cons_False, filter_cons_True by congruence.
    by rewrite <- app_assoc.
  - rewrite filter_cons_False, filter_cons_True by congruence.
    by rewrite <- app_assoc.
  - rewrite filter_cons_True, filter_cons_False by (rewrite Hr; auto).
    rewrite fmap_cons, last_cons. by destruct (last _).
Qed.

Lemma no_system messages :
  Forall (λ m, role m ≠ system) messages → filter (λ m, role m = system) messages = [].
Proof.
  induction 1 as [|msg messages Hr _ IH]; [done|].
  by rewrite filter_cons_False.
Qed.

Lemma last_system_snoc messages msg :
  last_system (messages ++ [msg]) =
    if decide (role msg = system) then content msg else last_system messages.
Proof.
  unfold last_system. rewrite filter_app. case_decide.
  - rewrite filter_cons_True by done. rewrite fmap_app. cbn. by rewrite last_snoc.
  - rewrite filter_cons_False by done. by rewrite app_nil_r.
Qed.

Lemma last_system_after before msg after :
  role msg = system → Forall (λ m, role m ≠ system) after →
  last_system (before ++ msg :: after) = content msg.
Proof.
  intros Hr Hafter. unfold last_system.
  rewrite filter_app, filter_cons_True by done.
  rewrite (no_system after) by done.
  rewrite fmap_app. cbn. by rewrite last_snoc.
Qed.

Lemma anthropic_turn_role msg :
  own (anthropic_turn msg) "role" =
    Some (JStr (match role msg with assistant => "assistant" | _ => "user" end))
  ∧ own (anthropic_turn msg) "content" = Some (JStr (content msg)).
Proof. by destruct msg as [[] c]. Qed.

Lemma anthropic_body_eq messages model :
  anthropic_body messages model =
    let sent : gmap string json :=
      {[ "model" := JStr (or_else model "claude-3-sonnet-20240229");
         "max_tokens" := JNum (inject_Z 1024);
         "messages" := JArr (anthropic_turn <$> filter (λ m, role m ≠ system) messages) ]} in
    if decide (last_system messages = "") then sent
    else <[ "system" := JStr (last_system messages) ]> sent.
Proof.
  unfold anthropic_body. rewrite foldl_sift. cbn [app].
  fold (last_system messages). cbn. by case_bool_decide; case_decide.
Qed.

(** C3: the body [callAnthropicAPI] sends has, under [messages], one turn
    for each message that is not a system message, in the order of the
    history: the turn has the content of its message, and the role
    [assistant] if the message has it and [user] otherwise, so that none has
    the role [system].  The system prompt is the content of the last system
    message, whatever came before it; and the body has a [system] member
    exactly when that prompt is not empty. *)
Theorem callAnthropicAPI_system stub apiKey messages model :
  let sent := anthropic_body messages model in
  let remaining := filter (λ m, role m ≠ system) messages in
  let turns :=
    (λ msg, JObj {[ "role" := JStr (match role msg with
                                    | assistant => "assistant"
                                    | _ => "user"
                                    end);
                    "content" := JStr (content msg) ]}) <$> remaining in
  (body ∘ init <$> calls (callAnthropicAPI stub apiKey messages model) = [JObj sent])
  ∧ sent !! "messages" = Some (JArr turns)
  ∧ (∀ i msg, remaining !! i = Some msg →
       ∃ turn, turns !! i = Some turn
               ∧ own turn "content" = Some (JStr (content msg))
               ∧ own turn "role" = Some (JStr (if decide (role msg = assistant)
                                               then "assistant" else "user")))
  ∧ Forall (λ turn, own turn "role" = Some (JStr "user")
                    ∨ own turn "role" = Some (JStr "assistant")) turns
  ∧ sent !! "system" =
      (if decide (last_system messages = "") then None
       else Some (JStr (last_system messages)))
  ∧ (∀ before msg after,
       messages = before ++ msg :: after → role msg = system →
       Forall (λ m, role m ≠ system) after →
       last_system messages = content msg)
  ∧ (Forall (λ m, role m ≠ system) messages → last_system messages = "").
Proof.
  cbv zeta. split; [reflexivity|]. rewrite anthropic_body_eq. cbv zeta.
  split_and!.
  - case_decide; by simplify_map_eq.
  - intros i msg Hi. eexists. split; [by rewrite list_lookup_fmap, Hi|].
    fold (anthropic_turn msg). destruct (anthropic_turn_role msg) as [-> ->].
    split; [done|]. by destruct (role msg).
  - apply Forall_fmap, Forall_forall. intros msg _. unfold compose.
    fold (anthropic_turn msg).
    destruct (anthropic_turn_role msg) as [-> _]. destruct (role msg); auto.
  - case_decide; by simplify_map_eq.
  - intros before msg after -> Hr Hafter. by apply last_system_after.
  - intros Hall. unfold last_system. by rewrite no_system.
Qed.

End Anthropic.

(** The design document's own wording at work: two system messages, the
    later one wins, and the two turns left go out in their order with their
    contents; and no system message, no [system] member. *)
Lemma callAnthropicAPI_system_witness :
  last_system two_prompts = "b"
  ∧ anthropic_body two_prompts None !! "system" = Some (JStr "b")
  ∧ anthropic_body two_prompts None !! "messages"
    = Some (JArr [ JObj {[ "role" := JStr "user"; "content" := JStr "q" ]};
                   JObj {[ "role" := JStr "assistant"; "content" := JStr "r" ]} ])
  ∧ last_system [ {| role := user; content := "q" |} ] = "".
Proof.
  split_and!.
  - destruct (callAnthropicAPI_system (λ _, Failed "") "k" two_prompts None)
      as (_ & _ & _ & _ & _ & H & _).
    apply (H [ {| role := system; content := "a" |}; {| role := user; content := "q" |} ]
             {| role := system; content := "b" |}
             [ {| role := assistant; content := "r" |} ]); [reflexivity | reflexivity |].
    repeat constructor. discriminate.
  - destruct (callAnthropicAPI_system (λ _, Failed "") "k" two_prompts None)
      as (_ & _ & _ & _ & H & _).
    exact H.
  - destruct (callAnthropicAPI_system (λ _, Failed "") "k" two_prompts None)
      as (_ & H & _).
    exact H.
  - destruct (callAnthropicAPI_system (λ _, Failed "") "k"
                [ {| role := user; content := "q" |} ] None)
      as (_ & _ & _ & _ & _ & _ & H).
    apply H. repeat constructor. discriminate.
Defined.

(** ** The custom adapter *)

Section CustomAdapter.

Implicit Types (cfg : CustomApiConfigForBackend) (messages : list ApiChatMessage).

Lemma truthy_string_true s : s ≠ "" → truthy_string (Some s) = true.
Proof. intros. unfold truthy_string. by rewrite bool_decide_eq_false_2. Qed.

(** A header name that is not empty is the one the key goes under. *)
Lemma custom_headers_named cfg name :
  Config.apiKeyHeaderName cfg = Some name → name ≠ "" → name ≠ "__proto__" →
  Config.apiKey cfg ≠ "" →
  custom_headers cfg !! name
  = Some (or_else (Config.apiKeyPrefix cfg) "" +:+ Config.apiKey cfg).
Proof.
  intros Hn Hne Hproto Hk. unfold custom_headers. rewrite Hn.
  rewrite !truthy_string_true by done. cbn. unfold assign.
  rewrite bool_decide_eq_false_2 by done. apply lookup_insert_eq.
Qed.

(** C2, as the code has it: when [apiKeyHeaderName] is the empty string and
    the key is not empty, [callCustomAPI] sends the key as
    [Authorization: Bearer <key>], like when no header name is set, and sends
    no header under the empty name. *)
Theorem callCustomAPI_empty_header_name stub cfg messages model :
  Config.apiKeyHeaderName cfg = Some "" → Config.apiKey cfg ≠ "" →
  ∃ sent,
    headers ∘ init <$> calls (callCustomAPI stub cfg messages model) = [sent]
    ∧ sent !! "Authorization" = Some ("Bearer " +:+ Config.apiKey cfg)
    ∧ sent !! "" = None
    ∧ sent = {[ "Content-Type" := "application/json";
                "Authorization" := "Bearer " +:+ Config.apiKey cfg ]}.
Proof.
  intros Hn Hk. exists (custom_headers cfg). split; [reflexivity|].
  unfold custom_headers. rewrite Hn. rewrite (truthy_string_true (Config.apiKey cfg)) by done.
  cbn. unfold assign. cbn. split_and!; [by simplify_map_eq..|].
  apply insert_insert_ne. done.
Qed.

Lemma callCustomAPI_empty_header_name_witness :
  ∃ sent,
    headers ∘ init <$> calls (callCustomAPI (λ _, Failed "") empty_name_config [] None) = [sent]
    ∧ sent !! "Authorization" = Some "Bearer k"
    ∧ sent !! "" = None
    ∧ sent = {[ "Content-Type" := "application/json"; "Authorization" := "Bearer k" ]}.
Proof.
  apply (callCustomAPI_empty_header_name (λ _, Failed "") empty_name_config [] None).
  - reflexivity.
  - discriminate.
Defined.

(** C2 as it is worded fails: with the header name set to the empty string,
    the key is not under the empty name, with or without the prefix, and it is
    under [Authorization] with [Bearer ] before it. *)
Lemma callCustomAPI_empty_header_name_counterexample :
  headers ∘ init <$> calls (callCustomAPI (λ _, Failed "") empty_name_config [] None)
  = [custom_headers empty_name_config]
  ∧ custom_headers empty_name_config !! "" ≠ Some "Token k"
  ∧ custom_headers empty_name_config !! "" ≠ Some "k"
  ∧ custom_headers empty_name_config !! "" = None
  ∧ custom_headers empty_name_config !! "Authorization" = Some "Bearer k".
Proof. split_and!; try reflexivity; vm_compute; discriminate. Qed.

End CustomAdapter.

(** ** The relay *)

Section Relay.

Implicit Types (stub : Provider) (req : RequestBody) (cfg : CustomApiConfigForBackend).

#[local] Arguments M_bind : simpl never.
#[local] Arguments M_ret : simpl never.
#[local] Arguments M_fmap : simpl never.
#[local] Arguments request : simpl never.
#[local] Arguments lift : simpl never.
#[local] Arguments extract : simpl never.
#[local] Arguments truthy_string : simpl never.
#[local] Arguments callCustomAPI : simpl never.
#[local] Arguments callDeepSeekAPI : simpl never.
#[local] Arguments callOpenAIAPI : simpl never.
#[local] Arguments callAnthropicAPI : simpl never.
#[local] Arguments callGeminiAPI : simpl never.

Lemma POST_missing stub req :
  truthy_string (Request.provider req) = false ∨ Request.messages req = None →
  POST stub req = ([], error_response "Missing provider or messages" 400).
Proof.
  unfold POST, handle. intros [H| ->].
  - destruct (Request.provider req) as [p|]; [|done]. rewrite H.
    by destruct (Request.messages req).
  - by destruct (Request.provider req).
Qed.

Lemma POST_call who stub i provider isCustomProvider customApiConfig :
  match
    (called ← inr <$> request who stub i;
     match called with
     | inl early => mret early
     | inr responseData =>
         aiMessageText ←
           lift (extract provider isCustomProvider customApiConfig responseData);
         mret (success aiMessageText responseData)
     end) : M NextResponse
  with
  | (calls, Returned response) => (calls, response)
  | (calls, Thrown message) => (calls, error_response message 500)
  end = reply who stub i provider isCustomProvider customApiConfig.
Proof.
  unfold reply, request, fmap, M_fmap, mbind, M_bind, mret, M_ret, lift.
  destruct (stub i) as [data|message]; [|done].
  by destruct (extract _ _ _ data).
Qed.

Lemma POST_custom stub req provider messages cfg :
  Request.provider req = Some provider → provider ≠ "" →
  Request.messages req = Some messages →
  Request.customApiConfig req = Some cfg → Config.id cfg = provider →
  POST stub req =
    reply Custom stub (custom_init cfg (toApiMessage <$> messages) (Request.model req))
      provider true (Some cfg).
Proof.
  intros Hp Hne Hm Hc Hid. unfold POST, handle. rewrite Hp, Hm, Hc.
  rewrite truthy_string_true by done. cbn.
  rewrite (bool_decide_eq_true_2 _ Hid). apply POST_call.
Qed.

Lemma POST_builtin stub req provider messages key :
  Request.provider req = Some provider → provider ≠ "" →
  Request.messages req = Some messages →
  (∀ cfg, Request.customApiConfig req = Some cfg → Config.id cfg ≠ provider) →
  Request.apiKey req = Some key → key ≠ "" →
  POST stub req =
    let apiMessages := toApiMessage <$> messages in
    let model := Request.model req in
    let customApiConfig := Request.customApiConfig req in
    if bool_decide (provider = "deepseek") then
      reply DeepSeek stub (deepseek_init key apiMessages model) provider false customApiConfig
    else if bool_decide (provider = "openai") then
      reply OpenAI stub (openai_init key apiMessages model) provider false customApiConfig
    else if bool_decide (provider = "anthropic") then
      reply Anthropic stub (anthropic_init key apiMessages model) provider false customApiConfig
    else if bool_decide (provider = "gemini") then
      reply Gemini stub (gemini_init key apiMessages model) provider false customApiConfig
    else ([], error_response "Unsupported or misconfigured AI provider" 400).
Proof.
  intros Hp Hne Hm Hc Hk Hkne. unfold POST, handle. rewrite Hp, Hm, Hk.
  rewrite !truthy_string_true by done. rewrite andb_false_r. cbn.
  assert (match Request.customApiConfig req with
          | Some customApiConfig => bool_decide (Config.id customApiConfig = provider)
          | None => false
          end = false) as ->.
  { destruct (Request.customApiConfig req) as [cfg|]; [|done].
    apply bool_decide_eq_false_2. by apply Hc. }
  clear Hc. destruct (Request.customApiConfig req) as [cfg|]; cbv zeta;
    repeat case_bool_decide; try apply POST_call; reflexivity.
Qed.

Lemma POST_no_credentials stub req provider messages :
  Request.provider req = Some provider → provider ≠ "" →
  Request.messages req = Some messages →
  Request.customApiConfig req = None → truthy_string (Request.apiKey req) = false →
  POST stub req = ([], error_response "Missing apiKey" 400).
Proof.
  intros Hp Hne Hm Hc Hk. unfold POST, handle. rewrite Hp, Hm, Hc, Hk.
  by rewrite truthy_string_true.
Qed.

Lemma POST_configuration_error stub req provider messages cfg :
  Request.provider req = Some provider → provider ≠ "" →
  Request.messages req = Some messages →
  Request.customApiConfig req = Some cfg → Config.id cfg ≠ provider →
  truthy_string (Request.apiKey req) = false →
  POST stub req = ([], error_response "Provider configuration error" 400).
Proof.
  intros Hp Hne Hm Hc Hid Hk. unfold POST, handle. rewrite Hp, Hm, Hc.
  rewrite truthy_string_true by done. cbn.
  rewrite (bool_decide_eq_false_2 _ Hid).
  destruct (Request.apiKey req) as [key|]; [|done]. by rewrite Hk.
Qed.

(** [POST] either answers 400 without calling anyone, or makes the one call
    the request selects and answers from it; which of the two, and which
    call, does not depend on the provider. *)
Lemma POST_shape req :
  (∃ message, ∀ stub, POST stub req = ([], error_response message 400))
  ∨ (∃ who i provider,
       Request.provider req = Some provider
       ∧ ∀ stub,
           POST stub req =
             reply who stub i provider
               (match Request.customApiConfig req with
                | Some cfg => bool_decide (Config.id cfg = provider)
                | None => false
                end)
               (Request.customApiConfig req)).
Proof.
  destruct (Request.provider req) as [provider|] eqn:Hp;
    [|left; eexists; intros; apply POST_missing; left; by rewrite Hp].
  destruct (decide (provider = "")) as [->|Hne];
    [left; eexists; intros; apply POST_missing; left; by rewrite Hp|].
  destruct (Request.messages req) as [messages|] eqn:Hm;
    [|left; eexists; intros; apply POST_missing; by right].
  destruct (Request.customApiConfig req) as [cfg|] eqn:Hc.
  - destruct (decide (Config.id cfg = provider)) as [Hid|Hid].
    + right. do 3 eexists. split; [done|]. intros stub.
      rewrite (bool_decide_eq_true_2 _ Hid).
      by eapply POST_custom.
    + destruct (truthy_string (Request.apiKey req)) eqn:Hk.
      * destruct (Request.apiKey req) as [key|] eqn:Hkey; [|done].
        assert (key ≠ "") as Hkne by (intros ->; done).
        pose proof (λ stub, POST_builtin stub req provider messages key Hp Hne Hm) as H.
        rewrite Hc in H. cbv zeta in H.
        repeat case_bool_decide;
          try (right; do 3 eexists; split; [done|]; intros stub;
               rewrite (bool_decide_eq_false_2 _ Hid); apply H; [|done..]; congruence).
        left. eexists. intros stub. apply H; [|done..]. congruence.
      * left. eexists. intros. by eapply POST_configuration_error.
  - destruct (truthy_string (Request.apiKey req)) eqn:Hk.
    + destruct (Request.apiKey req) as [key|] eqn:Hkey; [|done].
      assert (key ≠ "") as Hkne by (intros ->; done).
      pose proof (λ stub, POST_builtin stub req provider messages key Hp Hne Hm) as H.
      rewrite Hc in H. cbv zeta in H.
      repeat case_bool_decide;
        try (right; do 3 eexists; split; [done|]; intros stub; apply H; done).
      left. eexists. intros stub. apply H; done.
    + left. eexists. intros. by eapply POST_no_credentials.
Qed.

(** C6: a request that has a provider and messages but neither an API key
    nor a custom configuration is answered 400 with an error envelope, and no
    provider is called. *)
Theorem POST_missing_credentials stub req provider messages :
  Request.provider req = Some provider → provider ≠ "" →
  Request.messages req = Some messages →
  Request.apiKey req = None → Request.customApiConfig req = None →
  POST stub req = ([], error_response "Missing apiKey" 400)
  ∧ (POST stub req).1 = []
  ∧ status (POST stub req).2 = 400
  ∧ payload (POST stub req).2 = {[ "error" := JStr "Missing apiKey" ]}.
Proof.
  intros Hp Hne Hm Hk Hc.
  rewrite (POST_no_credentials stub req provider messages) by (done || by rewrite Hk).
  done.
Qed.

(** C10: a request with an API key whose provider is none of the four built
    in, and is not the id of the configuration that came with it, is answered
    400 with "Unsupported or misconfigured AI provider", and no provider is
    called. *)
Theorem POST_unsupported_provider stub req provider messages key :
  Request.provider req = Some provider → provider ≠ "" →
  Request.messages req = Some messages →
  Request.apiKey req = Some key → key ≠ "" →
  provider ∉ ["deepseek"; "openai"; "anthropic"; "gemini"] →
  (∀ cfg, Request.customApiConfig req = Some cfg → Config.id cfg ≠ provider) →
  POST stub req = ([], error_response "Unsupported or misconfigured AI provider" 400)
  ∧ (POST stub req).1 = []
  ∧ status (POST stub req).2 = 400
  ∧ payload (POST stub req).2
    = {[ "error" := JStr "Unsupported or misconfigured AI provider" ]}.
Proof.
  intros Hp Hne Hm Hk Hkne Hnot Hc.
  rewrite (POST_builtin stub req provider messages key) by done. cbv zeta.
  repeat case_bool_decide; subst; try done; exfalso; apply Hnot; set_solver.
Qed.

(** C4: the custom adapter is the one called exactly when a configuration
    came with the request and its id is the provider; a configuration with
    another id, together with an API key, leaves the call to the built-in
    adapter the provider names (and to none when it names none). *)
Theorem POST_routing stub req provider messages :
  Request.provider req = Some provider → provider ≠ "" →
  Request.messages req = Some messages →
  let sent := (POST stub req).1 in
  let apiMessages := toApiMessage <$> messages in
  let model := Request.model req in
  (∀ cfg, Request.customApiConfig req = Some cfg → Config.id cfg = provider →
     sent = calls (callCustomAPI stub cfg apiMessages model))
  ∧ ((∃ call, call ∈ sent ∧ adapter call = Custom)
     ↔ ∃ cfg, Request.customApiConfig req = Some cfg ∧ Config.id cfg = provider)
  ∧ (∀ cfg key,
       Request.customApiConfig req = Some cfg → Config.id cfg ≠ provider →
       Request.apiKey req = Some key → key ≠ "" →
       sent =
         if bool_decide (provider = "deepseek")
         then calls (callDeepSeekAPI stub key apiMessages model)
         else if bool_decide (provider = "openai")
         then calls (callOpenAIAPI stub key apiMessages model)
         else if bool_decide (provider = "anthropic")
         then calls (callAnthropicAPI stub key apiMessages model)
         else if bool_decide (provider = "gemini")
         then calls (callGeminiAPI stub key apiMessages model)
         else []).
Proof.
  intros Hp Hne Hm. cbv zeta.
  assert (∀ key,
            (∀ cfg', Request.customApiConfig req = Some cfg' → Config.id cfg' ≠ provider) →
            Request.apiKey req = Some key → key ≠ "" →
            (POST stub req).1 =
              (if bool_decide (provider = "deepseek")
               then calls (callDeepSeekAPI stub key (toApiMessage <$> messages) (Request.model req))
               else if bool_decide (provider = "openai")
               then calls (callOpenAIAPI stub key (toApiMessage <$> messages) (Request.model req))
               else if bool_decide (provider = "anthropic")
               then calls (callAnthropicAPI stub key (toApiMessage <$> messages) (Request.model req))
               else if bool_decide (provider = "gemini")
               then calls (callGeminiAPI stub key (toApiMessage <$> messages) (Request.model req))
               else [])
            ∧ ¬ ∃ call, call ∈ (POST stub req).1 ∧ adapter call = Custom) as Hbuiltin.
  { intros key Hc Hk Hkne.
    rewrite (POST_builtin stub req provider messages key) by done. cbv zeta.
    repeat case_bool_decide; (split; [reflexivity|]); intros (call & Hin & Hwho);
      cbn in Hin;
      first [ apply list_elem_of_singleton in Hin; subst call; discriminate
            | by apply elem_of_nil in Hin ]. }
  split_and!.
  - intros cfg Hc Hid. by rewrite (POST_custom stub req provider messages cfg).
  - split.
    + intros Hcustom.
      destruct (Request.customApiConfig req) as [cfg|] eqn:Hc.
      * destruct (decide (Config.id cfg = provider)) as [Hid|Hid]; [by eauto|].
        exfalso. destruct (Request.apiKey req) as [key|] eqn:Hk.
        -- destruct (decide (key = "")) as [->|Hkne].
           ++ rewrite (POST_configuration_error stub req provider messages cfg)
                in Hcustom by (done || by rewrite Hk).
              destruct Hcustom as (call & Hin & _). by apply elem_of_nil in Hin.
           ++ eapply (Hbuiltin key); [congruence|done..].
        -- rewrite (POST_configuration_error stub req provider messages cfg)
             in Hcustom by (done || by rewrite Hk).
           destruct Hcustom as (call & Hin & _). by apply elem_of_nil in Hin.
      * exfalso. destruct (Request.apiKey req) as [key|] eqn:Hk.
        -- destruct (decide (key = "")) as [->|Hkne].
           ++ rewrite (POST_no_credentials stub req provider messages)
                in Hcustom by (done || by rewrite Hk).
              destruct Hcustom as (call & Hin & _). by apply elem_of_nil in Hin.
           ++ eapply (Hbuiltin key); [congruence|done..].
        -- rewrite (POST_no_credentials stub req provider messages)
             in Hcustom by (done || by rewrite Hk).
           destruct Hcustom as (call & Hin & _). by apply elem_of_nil in Hin.
    + intros (cfg & Hc & Hid).
      rewrite (POST_custom stub req provider messages cfg) by done.
      eexists. split; [apply list_elem_of_singleton; reflexivity | done].
  - intros cfg key Hc Hid Hk Hkne. apply (Hbuiltin key); [|done..].
    intros cfg'. rewrite Hc. congruence.
Qed.

Lemma reply_parsed who stub i provider isCustomProvider customApiConfig data :
  stub i = Parsed data →
  reply who stub i provider isCustomProvider customApiConfig =
    ([{| adapter := who; init := i |}],
     success
       (let responsePath := customApiConfig ≫= Config.responsePath in
        if isCustomProvider && truthy_string responsePath then
          default format_mismatch (getNestedValue (Some data) (default "" responsePath))
        else if bool_decide (provider = "anthropic") then
          default parse_failure (rule_anthropic data)
        else if bool_decide (provider = "openai") || bool_decide (provider = "deepseek") then
          default parse_failure (rule_openai data)
        else if bool_decide (provider = "gemini") then
          default parse_failure (rule_gemini data)
        else if isCustomProvider then
          if nonempty_array (own data "choices")
          then default parse_failure (rule_openai data)
          else default parse_failure (rule_anthropic data)
        else parse_failure)
       data).
Proof. intros Hstub. unfold reply. by rewrite Hstub, extract_eq. Qed.

Lemma rule_openai_choices data :
  nonempty_array (own data "choices") = false → rule_openai data = None.
Proof. intros H. unfold rule_openai. by apply nonempty_array_none. Qed.

(** C5: once a provider has answered with a JSON body, the relay answers
    200 with that body, as it came, under [rawResponse] and a string under
    [aiResponse]; when the body has not the shape expected for the request,
    and so when it matches no extraction rule at all, the string is a
    sentinel: "Error: Could not parse AI response.", or "Error: Custom API
    response format mismatch." for a custom provider with a response path. *)
Theorem POST_unparsed stub req data :
  (POST stub req).1 ≠ [] →
  (∀ call, call ∈ (POST stub req).1 → stub (init call) = Parsed data) →
  status (POST stub req).2 = 200
  ∧ payload (POST stub req).2 !! "rawResponse" = Some data
  ∧ ∃ aiMessageText,
      (POST stub req).2 = success aiMessageText data
      ∧ payload (POST stub req).2 !! "aiResponse" = Some (JStr aiMessageText)
      ∧ (expected_shape req data = None → aiMessageText = sentinel req)
      ∧ (rule_anthropic data = None → rule_openai data = None →
         rule_gemini data = None →
         (∀ cfg path, Request.customApiConfig req = Some cfg →
                      Config.responsePath cfg = Some path →
                      getNestedValue (Some data) path = None) →
         aiMessageText = sentinel req)
      ∧ (sentinel req = "Error: Could not parse AI response."
         ∨ sentinel req = "Error: Custom API response format mismatch.").
Proof.
  intros Hsent Hstub.
  destruct (POST_shape req) as [(message & H)|(who & i & provider & Hp & H)].
  { by rewrite H in Hsent. }
  rewrite H in Hstub |- *. clear H Hsent.
  rewrite reply_parsed with (data := data)
    by (apply (Hstub {| adapter := who; init := i |}), list_elem_of_singleton; done).
  cbn [snd]. clear Hstub.
  split_and!; [done|by simplify_map_eq|].
  eexists. split_and!; [done|by simplify_map_eq|..].
  - unfold expected_shape, sentinel, selected_path, custom_selected. rewrite Hp.
    cbv zeta. cbn [default].
    destruct (Request.customApiConfig req) as [cfg|]; cbn.
    + destruct (bool_decide (Config.id cfg = provider)); cbn.
      * destruct (truthy_string (Config.responsePath cfg)); [by intros ->|].
        repeat case_bool_decide; cbn; try by intros ->.
        destruct (nonempty_array (own data "choices")) eqn:Hn.
        -- destruct (rule_openai data); [done|]. by intros _.
        -- rewrite (rule_openai_choices _ Hn). by intros ->.
      * replace (truthy_string None) with false by done.
        repeat case_bool_decide; cbn; try done; by intros ->.
    + replace (truthy_string None) with false by done.
      repeat case_bool_decide; cbn; try done; by intros ->.
  - intros Ha Ho Hg Hpath. rewrite Ha, Ho, Hg.
    unfold sentinel, selected_path, custom_selected. rewrite Hp. cbv zeta.
    destruct (Request.customApiConfig req) as [cfg|]; cbn.
    + destruct (bool_decide (Config.id cfg = provider)); cbn.
      * destruct (Config.responsePath cfg) as [path|] eqn:Hrp; cbn.
        -- destruct (truthy_string (Some path)) eqn:Ht.
           ++ by rewrite (Hpath cfg path).
           ++ by repeat case_bool_decide; cbn;
                try destruct (nonempty_array (own data "choices")).
        -- replace (truthy_string None) with false by done.
           by repeat case_bool_decide; cbn;
             try destruct (nonempty_array (own data "choices")).
      * replace (truthy_string None) with false by done. by repeat case_bool_decide.
    + replace (truthy_string None) with false by done. by repeat case_bool_decide.
  - unfold sentinel. destruct (truthy_string _); auto.
Qed.

Lemma POST_calls_stub stub stub' req : (POST stub req).1 = (POST stub' req).1.
Proof.
  destruct (POST_shape req) as [(message & H)|(who & i & provider & Hp & H)];
    by rewrite !H.
Qed.

Lemma toApiMessage_reads (history history' : list InboundMessage) :
  (λ m, (sender m, text m)) <$> history = (λ m, (sender m, text m)) <$> history' →
  toApiMessage <$> history = toApiMessage <$> history'.
Proof.
  intros H.
  change toApiMessage with
    ((λ st : string * string,
        {| role := if bool_decide (st.1 = "user") then user else assistant;
           content := st.2 |}) ∘ (λ m, (sender m, text m))).
  by rewrite !list_fmap_compose, H.
Qed.

Lemma POST_reads stub req req' :
  Request.provider req = Request.provider req' →
  Request.apiKey req = Request.apiKey req' →
  Request.model req = Request.model req' →
  Request.customApiConfig req = Request.customApiConfig req' →
  fmap (M := list) (λ m, (sender m, text m)) <$> Request.messages req
  = fmap (M := list) (λ m, (sender m, text m)) <$> Request.messages req' →
  POST stub req = POST stub req'.
Proof.
  intros Hp Hk Hmodel Hc Hm. unfold POST, handle. rewrite <- Hp, <- Hk, <- Hmodel, <- Hc.
  destruct (Request.messages req) as [history|], (Request.messages req') as [history'|];
    try done.
  injection Hm as Hm. by rewrite (toApiMessage_reads _ _ Hm).
Qed.

(** C9: what the relay sends out is a function of the provider, the key or
    configuration, the model and the senders and texts of the messages: two
    requests that agree on these lead to the same calls, whatever else the
    messages carry (an id, a timestamp) and whatever the providers answer;
    and so does each adapter called twice. *)
Theorem outbound_request_deterministic stub stub' req req' :
  Request.provider req = Request.provider req' →
  Request.apiKey req = Request.apiKey req' →
  Request.model req = Request.model req' →
  Request.customApiConfig req = Request.customApiConfig req' →
  fmap (M := list) (λ m, (sender m, text m)) <$> Request.messages req
  = fmap (M := list) (λ m, (sender m, text m)) <$> Request.messages req' →
  (POST stub req).1 = (POST stub' req').1
  ∧ (∀ key history model cfg,
       calls (callDeepSeekAPI stub key history model)
       = calls (callDeepSeekAPI stub' key history model)
       ∧ calls (callOpenAIAPI stub key history model)
         = calls (callOpenAIAPI stub' key history model)
       ∧ calls (callAnthropicAPI stub key history model)
         = calls (callAnthropicAPI stub' key history model)
       ∧ calls (callGeminiAPI stub key history model)
         = calls (callGeminiAPI stub' key history model)
       ∧ calls (callCustomAPI stub cfg history model)
         = calls (callCustomAPI stub' cfg history model)).
Proof.
  intros Hp Hk Hmodel Hc Hm. split; [|done].
  rewrite (POST_reads stub req req') by done. apply POST_calls_stub.
Qed.

Lemma gemini_turn_role msg :
  own (gemini_turn msg) "role" =
    Some (JStr (match role msg with
                | assistant => "model"
                | system => "user"
                | user => "user"
                end))
  ∧ own (gemini_turn msg) "parts" = Some (JArr [JObj {[ "text" := JStr (content msg) ]}]).
Proof. by destruct msg as [[] c]. Qed.

(** C7: [callGeminiAPI] sends the history as [contents], each message with
    its text as the one part and with the role [model] for an assistant and
    [user] for a system or user message; and when Gemini answers
    [{candidates:[{content:{parts:[{text:"4"}]}}]}], the relay answers 200 with
    [aiResponse] "4" and that answer under [rawResponse]. *)
Theorem gemini_roles_and_reply stub req key history :
  Request.provider req = Some "gemini" →
  Request.apiKey req = Some key → key ≠ "" →
  Request.messages req = Some history →
  (∀ cfg, Request.customApiConfig req = Some cfg → Config.id cfg ≠ "gemini") →
  (∀ model messages,
     body ∘ init <$> calls (callGeminiAPI stub key messages model)
     = [JObj {[ "contents" := JArr (gemini_turn <$> messages) ]}])
  ∧ (∀ msg,
       own (gemini_turn msg) "role" =
         Some (JStr (match role msg with
                     | assistant => "model"
                     | system => "user"
                     | user => "user"
                     end))
       ∧ own (gemini_turn msg) "parts"
         = Some (JArr [JObj {[ "text" := JStr (content msg) ]}]))
  ∧ (stub (gemini_init key (toApiMessage <$> history) (Request.model req))
       = Parsed gemini_fixture →
     POST stub req =
       ([{| adapter := Gemini;
            init := gemini_init key (toApiMessage <$> history) (Request.model req) |}],
        success "4" gemini_fixture)).
Proof.
  intros Hp Hk Hkne Hm Hc. split_and!; [done | apply gemini_turn_role |].
  intros Hstub. rewrite (POST_builtin _ req "gemini" history key) by done.
  cbv zeta. rewrite !bool_decide_eq_false_2 by done.
  rewrite bool_decide_eq_true_2 by done.
  rewrite reply_parsed with (data := gemini_fixture) by done.
  destruct (Request.customApiConfig req) as [cfg|]; reflexivity.
Qed.

(** C1, on the code: for a custom provider whose response path is set and
    does not resolve, [POST] answers with the format-mismatch sentinel and
    tries neither of the two common shapes, even when the body has one. *)
Theorem POST_custom_path_no_fallback stub req provider messages cfg path data :
  Request.provider req = Some provider → provider ≠ "" →
  Request.messages req = Some messages →
  Request.customApiConfig req = Some cfg → Config.id cfg = provider →
  Config.responsePath cfg = Some path → path ≠ "" →
  stub (custom_init cfg (toApiMessage <$> messages) (Request.model req)) = Parsed data →
  getNestedValue (Some data) path = None →
  (POST stub req).2 = success format_mismatch data.
Proof.
  intros Hp Hne Hm Hc Hid Hrp Hpne Hstub Hpath.
  rewrite (POST_custom stub req provider messages cfg) by done.
  unfold reply. rewrite Hstub. cbn [snd]. rewrite extract_eq. cbn.
  rewrite Hrp. cbn. rewrite truthy_string_true by done.
  by rewrite Hpath.
Qed.

End Relay.

(** ** The theorems above at work on the design document's scenarios *)

Lemma POST_missing_credentials_witness :
  POST (λ _, Failed "unreachable") no_key_request = ([], error_response "Missing apiKey" 400)
  ∧ (POST (λ _, Failed "unreachable") no_key_request).1 = []
  ∧ status (POST (λ _, Failed "unreachable") no_key_request).2 = 400
  ∧ payload (POST (λ _, Failed "unreachable") no_key_request).2
    = {[ "error" := JStr "Missing apiKey" ]}.
Proof.
  apply (POST_missing_credentials _ no_key_request "openai" [question]);
    (reflexivity || discriminate).
Defined.

Lemma POST_unsupported_provider_witness :
  (POST (λ _, Failed "unreachable") (reserved_request "replicate")
   = ([], error_response "Unsupported or misconfigured AI provider" 400))
  ∧ (POST (λ _, Failed "unreachable") (reserved_request "openrouter")
     = ([], error_response "Unsupported or misconfigured AI provider" 400)).
Proof.
  split.
  - apply (POST_unsupported_provider _ (reserved_request "replicate") "replicate" [question] "k");
      try (reflexivity || discriminate).
    + intros Hin. repeat (apply elem_of_cons in Hin as [Hin|Hin]; [discriminate|]).
      by apply elem_of_nil in Hin.
    + intros cfg Hcfg. injection Hcfg as <-. discriminate.
  - apply (POST_unsupported_provider _ (reserved_request "openrouter") "openrouter" [question] "k");
      try (reflexivity || discriminate).
    + intros Hin. repeat (apply elem_of_cons in Hin as [Hin|Hin]; [discriminate|]).
      by apply elem_of_nil in Hin.
    + intros cfg Hcfg. injection Hcfg as <-. discriminate.
Defined.

Lemma POST_routing_witness :
  (POST (λ _, Failed "down") path_request).1
  = calls (callCustomAPI (λ _, Failed "down") path_config [toApiMessage question] None)
  ∧ (POST (λ _, Failed "down") (reserved_request "openai")).1
    = calls (callOpenAIAPI (λ _, Failed "down") "k" [toApiMessage question] None).
Proof.
  split.
  - destruct (POST_routing (λ _, Failed "down") path_request "c1" [question])
      as (H & _); [reflexivity | discriminate | reflexivity |].
    apply (H path_config); reflexivity.
  - destruct (POST_routing (λ _, Failed "down") (reserved_request "openai") "openai" [question])
      as (_ & _ & H); [reflexivity | discriminate | reflexivity |].
    apply (H empty_name_config "k"); (reflexivity || discriminate).
Defined.

Lemma POST_unparsed_witness :
  status (POST (λ _, Parsed (JObj ∅)) gemini_request).2 = 200
  ∧ payload (POST (λ _, Parsed (JObj ∅)) gemini_request).2 !! "rawResponse" = Some (JObj ∅)
  ∧ ∃ aiMessageText,
      (POST (λ _, Parsed (JObj ∅)) gemini_request).2 = success aiMessageText (JObj ∅)
      ∧ aiMessageText = sentinel gemini_request
      ∧ aiMessageText = sentinel gemini_request.
Proof.
  destruct (POST_unparsed (λ _, Parsed (JObj ∅)) gemini_request (JObj ∅))
    as (Hs & Hraw & aiMessageText & Hr & _ & Hexpected & Hnone & _).
  - discriminate.
  - reflexivity.
  - split_and!; [exact Hs | exact Hraw |].
    exists aiMessageText. split_and!; [exact Hr | |].
    + apply Hexpected. reflexivity.
    + apply Hnone; try reflexivity. intros cfg path Hcfg. discriminate.
Defined.

Lemma outbound_request_deterministic_witness :
  (POST (λ _, Parsed gemini_fixture) gemini_request).1
  = (POST (λ _, Failed "down") stamped_request).1.
Proof.
  destruct (outbound_request_deterministic
              (λ _, Parsed gemini_fixture) (λ _, Failed "down") gemini_request stamped_request)
    as [H _]; [reflexivity..|exact H].
Defined.

Lemma gemini_roles_and_reply_witness :
  POST (λ _, Parsed gemini_fixture) gemini_request =
    ([{| adapter := Gemini; init := gemini_init "k" [toApiMessage question] None |}],
     success "4" gemini_fixture).
Proof.
  destruct (gemini_roles_and_reply (λ _, Parsed gemini_fixture) gemini_request "k" [question])
    as (_ & _ & H);
    [reflexivity | reflexivity | discriminate | reflexivity | discriminate |].
  apply H. reflexivity.
Defined.

(** With no response path the ladder does reach its last branch: the common
    shapes are tried, the OpenAI one first. *)
Example fallback_without_path :
  (POST (λ _, Parsed openai_fixture) plain_request).2 = success "hello" openai_fixture
  ∧ (POST (λ _, Parsed anthropic_fixture) plain_request).2 = success "hi" anthropic_fixture.
Proof. split; reflexivity. Qed.

(** The stub answers with the OpenAI shape, the path [data.text] finds
    nothing in it, and the relay does not answer "hello". *)
Lemma POST_custom_path_no_fallback_witness :
  (POST (λ _, Parsed openai_fixture) path_request).2
  = success "Error: Custom API response format mismatch." openai_fixture
  ∧ rule_openai openai_fixture = Some "hello".
Proof.
  split; [|reflexivity].
  apply (POST_custom_path_no_fallback
           (λ _, Parsed openai_fixture) path_request "c1" [question] path_config "data.text");
    (reflexivity || discriminate).
Defined.

(** * Further properties of the relay *)

Section RelayOutcomes.

Implicit Types (stub : Provider) (req : RequestBody) (v data : json).

Lemma reply_failed who stub i provider isCustomProvider customApiConfig message :
  stub i = Failed message →
  reply who stub i provider isCustomProvider customApiConfig =
    ([{| adapter := who; init := i |}], error_response message 500).
Proof. intros Hstub. unfold reply. by rewrite Hstub. Qed.


(** X11: reading the answer out of a body never throws, whatever the body:
    every member is read behind a test that it can be. *)
Theorem extract_never_throws provider isCustomProvider customApiConfig v :
  ∃ aiMessageText,
    extract provider isCustomProvider customApiConfig v = Returned aiMessageText
    ∧ (aiMessageText = parse_failure ∨ aiMessageText = format_mismatch
       ∨ rule_anthropic v = Some aiMessageText ∨ rule_openai v = Some aiMessageText
       ∨ rule_gemini v = Some aiMessageText
       ∨ ∃ path, customApiConfig ≫= Config.responsePath = Some path
                 ∧ getNestedValue (Some v) path = Some aiMessageText).
Proof.
  rewrite extract_eq. eexists. split; [done|]. cbv zeta.
  destruct (customApiConfig ≫= Config.responsePath) as [path|] eqn:Hpath; cbn [default from_option id].
  - destruct (isCustomProvider && truthy_string (Some path)).
    { destruct (getNestedValue (Some v) path) eqn:Hg; cbn [default from_option id]; [|by auto].
      do 5 right. by eauto. }
    repeat case_bool_decide; cbn [orb];
      try destruct isCustomProvider; try destruct (nonempty_array (own v "choices"));
      try destruct (rule_anthropic v); try destruct (rule_openai v);
      try destruct (rule_gemini v); cbn [default from_option id]; by auto 7.
  - rewrite andb_false_r.
    repeat case_bool_decide; cbn [orb];
      try destruct isCustomProvider; try destruct (nonempty_array (own v "choices"));
      try destruct (rule_anthropic v); try destruct (rule_openai v);
      try destruct (rule_gemini v); cbn [default from_option id]; by auto 7.
Qed.

End RelayOutcomes.

(** ** What an adapter throws *)

Section SettleFacts.

Variable ToString : json → string.

Implicit Types (who : Adapter) (name : string) (response : Http.t) (data error : json).

#[local] Arguments opt_prop : simpl never.
#[local] Arguments or_value : simpl never.
#[local] Arguments interpolate : simpl never.

Lemma settle_not_ok who name response :
  Http.ok response = false →
  ∃ message, settle ToString who name (Responded response) = Failed message.
Proof.
  intros Hok. unfold settle. rewrite Hok. cbn [negb].
  destruct (_ ≫= _); by eauto.
Qed.

Lemma own_singleton k v : own (JObj {[ k := v ]}) k = Some v.
Proof. apply lookup_singleton_eq. Qed.

Lemma own_message_type (a b : json) :
  own (JObj {[ "message" := a; "type" := b ]}) "message" = Some a
  ∧ own (JObj {[ "message" := a; "type" := b ]}) "type" = Some b.
Proof. unfold own. by simplify_map_eq. Qed.

Lemma own_some_not_null v k w : own v k = Some w → v ≠ JNull.
Proof. by intros H ->. Qed.

(** X2: when the provider's reply is not ok and its body carries a string
    that is not empty under [error.message], the adapter throws "... failed
    with status <status>: <that string>", with the head that names the
    adapter (and, for a custom one, the configuration). *)
Theorem settle_error_message who name response data error message :
  Http.ok response = false →
  Http.json_body response = Returned data →
  own data "error" = Some error →
  own error "message" = Some (JStr message) → message ≠ "" →
  settle ToString who name (Responded response)
  = Failed (failure_head who name +:+ pretty (Http.status response) +:+ ": " +:+ message).
Proof.
  intros Hok Hbody Herror Hmessage Hne.
  unfold settle, errorData_of, failure_detail. rewrite Hok, Hbody. cbn.
  rewrite prop_some by (by eapply own_some_not_null). rewrite Herror. cbn.
  assert (opt_prop (Some error) "message" = Some (JStr message)) as ->.
  { destruct error; try done. }
  assert (truthy (Some (JStr message)) = true) as Ht.
  { unfold truthy. by rewrite bool_decide_eq_false_2. }
  unfold or_value. rewrite Ht. destruct who; rewrite ?Ht; reflexivity.
Qed.

(** X3: when the reply is not ok and its body is not JSON, the built-in
    adapters throw the line with the status and, after the colon, the status
    text; for Anthropic that is "unknown_error" when the status text is
    empty.  The custom adapter reads the body a second time, as text: the
    body being used, that reading throws, and the adapter throws its
    [TypeError] in place of the line with the status; the text of the body is
    never in the message.  Only for a reply without any body does it throw
    the line with the status text. *)
Theorem settle_unreadable_body who name response cause :
  Http.ok response = false →
  Http.json_body response = Thrown cause →
  Http.read_once response →
  settle ToString who name (Responded response) =
    let failed detail :=
      Failed (failure_head who name +:+ pretty (Http.status response)
                +:+ ": " +:+ detail) in
    match who with
    | Custom =>
        match Http.text_body response with
        | Thrown message => Failed message
        | Returned _ => failed (Http.statusText response)
        end
    | Anthropic =>
        failed (if bool_decide (Http.statusText response = "")
                then "unknown_error" else Http.statusText response)
    | _ => failed (Http.statusText response)
    end.
Proof.
  intros Hok Hbody Honce. unfold settle, errorData_of, failure_detail.
  unfold Http.read_once in Honce. rewrite Hbody in Honce. rewrite Hok, Hbody.
  cbv zeta.
  destruct who;
    try (destruct (Http.text_body response) as [raw|message]; [subst raw|done]);
    cbn; rewrite prop_some, own_singleton by done; cbn; unfold opt_prop;
    rewrite ?own_singleton, ?(proj1 (own_message_type _ _)), ?(proj2 (own_message_type _ _));
    unfold or_value, truthy, interpolate; repeat (case_bool_decide; cbn [negb]); done.
Qed.

(** X4: when the reply is not ok and its body is the JSON [null], reading
    [error] off it throws, and the adapter throws that [TypeError] instead of
    the line with the status. *)
Theorem settle_null_body who name response :
  Http.ok response = false →
  Http.json_body response = Returned JNull →
  ∃ message,
    prop (Some JNull) "error" = Thrown message
    ∧ settle ToString who name (Responded response) = Failed message.
Proof.
  intros Hok Hbody. eexists. split; [reflexivity|].
  unfold settle, errorData_of, failure_detail. by rewrite Hok, Hbody.
Qed.

(** X5: an adapter returns a body exactly when [fetch] resolved, the reply
    is ok and its body is JSON, and then it returns that body; a reply that is
    not ok always makes it throw. *)
Theorem settle_parsed_iff who name exchange data :
  settle ToString who name exchange = Parsed data
  ↔ ∃ response,
      exchange = Responded response
      ∧ Http.ok response = true ∧ Http.json_body response = Returned data.
Proof.
  split.
  - destruct exchange as [message|response]; [done|]. unfold settle.
    destruct (Http.ok response) eqn:Hok; cbn.
    + destruct (Http.json_body response) as [body|message] eqn:Hbody; [|done].
      intros [= ->]. by eauto.
    + by destruct (_ ≫= _).
  - intros (response & -> & Hok & Hbody). unfold settle. by rewrite Hok, Hbody.
Qed.

(** X6: the relay answers 500 to every reply of a provider that is not ok,
    whatever the provider's own status: that status is only part of the
    message. *)
Theorem POST_provider_status stub req call name response :
  (POST stub req).1 = [call] →
  stub (init call) = settle ToString (adapter call) name (Responded response) →
  Http.ok response = false →
  status (POST stub req).2 = 500
  ∧ ∃ message,
      stub (init call) = Failed message
      ∧ payload (POST stub req).2 = {[ "error" := JStr message ]}.
Proof.
  intros Hcalls Hstub Hok.
  destruct (settle_not_ok (adapter call) name response Hok) as (message & Hfailed).
  rewrite Hfailed in Hstub. clear Hfailed.
  destruct (POST_shape req) as [(early & H)|(who & i & provider & Hp & H)].
  { by rewrite H in Hcalls. }
  rewrite H in Hcalls |- *. injection Hcalls as <-. cbn [init] in Hstub.
  rewrite reply_failed with (message := message) by done.
  split; [done|]. by eauto.
Qed.

End SettleFacts.

(** ** The custom adapter's request *)

Section CustomRequest.

Implicit Types (cfg : CustomApiConfigForBackend) (messages : list ApiChatMessage).

Lemma assign_ne {V} k (v : V) (obj : gmap string V) :
  k ≠ "__proto__" → assign k v obj = <[ k := v ]> obj.
Proof. intros. unfold assign. by rewrite bool_decide_eq_false_2. Qed.

Lemma or_else_named (s : option string) d :
  or_else s d = if truthy_string s then default "" s else d.
Proof. destruct s as [s|]; cbn; [|done]. by case_bool_decide. Qed.

(** X7: the body of the custom adapter has the history under
    [messagesParamName], or [messages] when that is unset or empty.  It has
    the model under [modelParamName], or [model], only when a model that is
    not empty came with the request.  When the two names are the same the
    model takes the place of the history. *)
Theorem custom_body_members cfg messages model :
  let history := JArr (role_content <$> messages) in
  let names := or_else (Config.messagesParamName cfg) "messages" in
  let key := or_else (Config.modelParamName cfg) "model" in
  names ≠ "__proto__" →
  (truthy_string model = false →
     custom_body cfg messages model = {[ names := history ]})
  ∧ (∀ m, model = Some m → m ≠ "" → key ≠ "__proto__" →
       custom_body cfg messages model = <[ key := JStr m ]> {[ names := history ]}
       ∧ custom_body cfg messages model !! key = Some (JStr m)
       ∧ (key ≠ names → custom_body cfg messages model !! names = Some history)
       ∧ (key = names → custom_body cfg messages model = {[ key := JStr m ]})).
Proof.
  cbv zeta. intros Hnames. unfold custom_body. cbv zeta.
  rewrite (assign_ne (or_else (Config.messagesParamName cfg) "messages")) by done.
  rewrite insert_empty. split.
  - intros Hmodel. rewrite Hmodel. by rewrite andb_false_r.
  - intros m -> Hm Hkey. rewrite (truthy_string_true m) by done.
    rewrite andb_true_r. cbn [default from_option id].
    assert ((if truthy_string (Config.modelParamName cfg)
             then assign (default "" (Config.modelParamName cfg)) (JStr m)
                    ({[or_else (Config.messagesParamName cfg) "messages" :=
                         JArr (role_content <$> messages)]} : gmap string json)
             else assign "model" (JStr m)
                    {[or_else (Config.messagesParamName cfg) "messages" :=
                        JArr (role_content <$> messages)]})
            = <[or_else (Config.modelParamName cfg) "model" := JStr m]>
                {[or_else (Config.messagesParamName cfg) "messages" :=
                    JArr (role_content <$> messages)]}) as ->.
    { rewrite (or_else_named (Config.modelParamName cfg)) in Hkey |- *.
      destruct (truthy_string (Config.modelParamName cfg)); by rewrite assign_ne. }
    split_and!.
    + done.
    + apply lookup_insert_eq.
    + intros Hne. rewrite lookup_insert_ne by done. apply lookup_singleton_eq.
    + intros ->. apply insert_singleton_eq.
Qed.

(** X8: the custom adapter sends no key at all when the configured key is
    empty, whatever header name is set.  With a key and a header name that is
    not empty, the key goes under that name with the prefix before it, and
    [Authorization] is sent only if that is the name; a header name of
    [Content-Type] replaces the content type. *)
Theorem custom_headers_cases cfg :
  (Config.apiKey cfg = "" →
     custom_headers cfg = {[ "Content-Type" := "application/json" ]})
  ∧ (∀ name, Config.apiKeyHeaderName cfg = Some name →
       name ≠ "" → name ≠ "__proto__" → Config.apiKey cfg ≠ "" →
       let value := or_else (Config.apiKeyPrefix cfg) "" +:+ Config.apiKey cfg in
       custom_headers cfg = <[ name := value ]> {[ "Content-Type" := "application/json" ]}
       ∧ (name ≠ "Authorization" → custom_headers cfg !! "Authorization" = None)
       ∧ (name = "Content-Type" → custom_headers cfg = {[ "Content-Type" := value ]})).
Proof.
  split.
  - intros Hkey. unfold custom_headers. rewrite Hkey. by rewrite andb_false_r.
  - intros name Hname Hne Hproto Hkey. cbv zeta. unfold custom_headers. rewrite Hname.
    rewrite !truthy_string_true by done. cbn. unfold assign.
    rewrite (bool_decide_eq_false_2 _ Hproto). split_and!.
    + done.
    + intros Hauth. rewrite lookup_insert_ne by done. by apply lookup_singleton_ne.
    + intros ->. apply insert_singleton_eq.
Qed.

End CustomRequest.

(** ** The relay and the shapes it reads *)

Section RelayShapes.

Implicit Types (stub : Provider) (req : RequestBody) (data : json).

Lemma toApiMessage_no_system (history : list InboundMessage) :
  Forall (λ m, role m ≠ system) (toApiMessage <$> history).
Proof.
  apply Forall_fmap, Forall_forall. intros m _. unfold compose, toApiMessage. cbn.
  by case_bool_decide.
Qed.

Lemma filter_all {A} (P : A → Prop) `{∀ x, Decision (P x)} (l : list A) :
  Forall P l → filter P l = l.
Proof.
  induction 1 as [|x l Hx _ IH]; [done|]. rewrite filter_cons_True by done. by rewrite IH.
Qed.

(** X9: of a history that comes through the relay, Anthropic gets every
    message, in order, as a [user] turn when the sender is [user] and as an
    [assistant] turn otherwise, and never a [system] member: the relay makes
    no system message. *)
Theorem POST_anthropic_history stub req key history :
  Request.provider req = Some "anthropic" →
  Request.apiKey req = Some key → key ≠ "" →
  Request.messages req = Some history →
  (∀ cfg, Request.customApiConfig req = Some cfg → Config.id cfg ≠ "anthropic") →
  ∃ sent,
    (POST stub req).1
    = [{| adapter := Anthropic;
          init := anthropic_init key (toApiMessage <$> history) (Request.model req) |}]
    ∧ body (anthropic_init key (toApiMessage <$> history) (Request.model req)) = JObj sent
    ∧ sent !! "system" = None
    ∧ sent !! "messages" =
        Some (JArr ((λ m, JObj {[ "role" := JStr (if bool_decide (sender m = "user")
                                                  then "user" else "assistant");
                                  "content" := JStr (text m) ]}) <$> history)).
Proof.
  intros Hp Hk Hkne Hm Hc.
  exists (anthropic_body (toApiMessage <$> history) (Request.model req)).
  split_and!.
  - rewrite (POST_builtin stub req "anthropic" history key) by done. cbv zeta.
    rewrite !bool_decide_eq_false_2 by done. by rewrite bool_decide_eq_true_2.
  - done.
  - rewrite anthropic_body_eq. cbv zeta.
    assert (last_system (toApiMessage <$> history) = "") as ->.
    { unfold last_system. by rewrite no_system by apply toApiMessage_no_system. }
    rewrite decide_True by done. by simplify_map_eq.
  - rewrite anthropic_body_eq. cbv zeta.
    rewrite (filter_all _ _ (toApiMessage_no_system history)).
    assert (last_system (toApiMessage <$> history) = "") as ->.
    { unfold last_system. by rewrite no_system by apply toApiMessage_no_system. }
    rewrite decide_True by done. simplify_map_eq. do 2 f_equal.
    rewrite <- list_fmap_compose. apply list_fmap_ext. intros _ m _.
    unfold compose, anthropic_turn, toApiMessage. cbn. by case_bool_decide.
Qed.

(** X10: a custom configuration whose id is the name of a built-in provider
    wins the routing, and without a response path its answer is then read
    with the shape of that built-in provider alone. *)
Theorem POST_custom_named_like_builtin stub req provider history cfg data :
  Request.provider req = Some provider → provider ≠ "" →
  Request.messages req = Some history →
  Request.customApiConfig req = Some cfg → Config.id cfg = provider →
  truthy_string (Config.responsePath cfg) = false →
  stub (custom_init cfg (toApiMessage <$> history) (Request.model req)) = Parsed data →
  (POST stub req).1
  = [{| adapter := Custom;
        init := custom_init cfg (toApiMessage <$> history) (Request.model req) |}]
  ∧ (provider = "anthropic" →
       (POST stub req).2 = success (default parse_failure (rule_anthropic data)) data)
  ∧ (provider = "openai" ∨ provider = "deepseek" →
       (POST stub req).2 = success (default parse_failure (rule_openai data)) data)
  ∧ (provider = "gemini" →
       (POST stub req).2 = success (default parse_failure (rule_gemini data)) data).
Proof.
  intros Hp Hne Hm Hc Hid Hpath Hstub.
  rewrite (POST_custom stub req provider history cfg) by done.
  rewrite reply_parsed with (data := data) by done. cbn. rewrite Hpath. cbn.
  split_and!; [done|..].
  - by intros ->.
  - by intros [-> | ->].
  - by intros ->.
Qed.

(** X12: for a custom provider without a response path (and an id that is
    no built-in name), the Anthropic shape is tried only when [choices] is
    not a non-empty array: once it is one, the answer is what the OpenAI shape
    gives, or the sentinel, whatever [content] holds. *)
Theorem POST_custom_fallback_order stub req provider history cfg data :
  Request.provider req = Some provider → provider ≠ "" →
  Request.messages req = Some history →
  Request.customApiConfig req = Some cfg → Config.id cfg = provider →
  truthy_string (Config.responsePath cfg) = false →
  provider ∉ ["anthropic"; "openai"; "deepseek"; "gemini"] →
  stub (custom_init cfg (toApiMessage <$> history) (Request.model req)) = Parsed data →
  (nonempty_array (own data "choices") = true →
     (POST stub req).2 = success (default parse_failure (rule_openai data)) data)
  ∧ (nonempty_array (own data "choices") = false →
     (POST stub req).2 = success (default parse_failure (rule_anthropic data)) data).
Proof.
  intros Hp Hne Hm Hc Hid Hpath Hnot Hstub.
  rewrite (POST_custom stub req provider history cfg) by done.
  rewrite reply_parsed with (data := data) by done. cbn. rewrite Hpath. cbn.
  rewrite !bool_decide_eq_false_2 by (intros ->; apply Hnot; set_solver). cbn.
  split; by intros ->.
Qed.

Lemma split_segment_no_sep sep s seg a b :
  seg ∈ split sep s → seg ≠ a +:+ String sep b.
Proof.
  revert seg a b. induction s as [|c s IH]; intros seg a b; cbn.
  - intros ->%list_elem_of_singleton. by destruct a.
  - case_decide as Hc.
    + intros [->|Hin]%elem_of_cons; [by destruct a | by apply IH].
    + destruct (split_cons sep s) as (seg0 & segs & Hs). rewrite Hs in IH |- *.
      intros [->|Hin]%elem_of_cons.
      * destruct a as [|c' a']; cbn; [by intros [= ? ?]|].
        intros [= -> Hseg0]. eapply (IH seg0); [by left | done].
      * apply IH. by right.
Qed.

(** X13: a member whose name has a dot in it cannot be reached by any path:
    the path is cut at every dot, so taking such a member out of the response
    changes nothing to what [getNestedValue] gives. *)
Theorem getNestedValue_dotted_member (members : gmap string json) a b path :
  getNestedValue (Some (JObj members)) path
  = getNestedValue (Some (JObj (delete (a +:+ "." +:+ b) members))) path.
Proof.
  rewrite !getNestedValue_eq. case_decide; [done|].
  destruct (split_cons "." path) as (seg & segs & Hs).
  pose proof (split_segment_no_sep "." path seg a b) as Hseg.
  rewrite Hs in Hseg |- *. cbn [walk].
  change (own (JObj members) seg) with (members !! seg).
  change (own (JObj (delete (a +:+ "." +:+ b) members)) seg)
    with (delete (a +:+ "." +:+ b) members !! seg).
  rewrite lookup_delete_ne; [done|]. intros Heq. apply Hseg; [by left | done].
Qed.

End RelayShapes.

(** * The client's store *)

Section StoreFacts.

Implicit Types (st prev : AppState) (s : ChatSession.t) (c : CustomApiConfig).

#[local] Arguments find : simpl never.

Lemma find_Some {A} (P : A → Prop) `{∀ x, Decision (P x)} (l : list A) x :
  find P l = Some x → x ∈ l ∧ P x.
Proof.
  unfold find. destruct (list_find P l) as [[i y]|] eqn:Hf; [|done].
  intros [= <-]. apply list_find_Some in Hf as (Hi & HP & _).
  split; [|done]. apply list_elem_of_lookup. by eauto.
Qed.

Lemma find_None {A} (P : A → Prop) `{∀ x, Decision (P x)} (l : list A) :
  find P l = None ↔ Forall (λ x, ¬ P x) l.
Proof.
  unfold find. destruct (list_find P l) as [[i x]|] eqn:Hf; cbn.
  - split; [done|]. intros HF. apply (proj2 (list_find_None P l)) in HF. congruence.
  - split; [|done]. intros _. by apply (proj1 (list_find_None P l)).
Qed.

Lemma find_app_l {A} (P : A → Prop) `{∀ x, Decision (P x)} (l l' : list A) x :
  find P l = Some x → find P (l ++ l') = Some x.
Proof.
  unfold find. destruct (list_find P l) as [[i y]|] eqn:Hf; [|done].
  intros [= <-]. by erewrite list_find_app_l.
Qed.

Lemma find_app_r {A} (P : A → Prop) `{∀ x, Decision (P x)} (l l' : list A) :
  find P l = None → find P (l ++ l') = find P l'.
Proof.
  unfold find. destruct (list_find P l) as [[i y]|] eqn:Hf; [done|]. intros _.
  rewrite list_find_app_r by done. by destruct (list_find P l') as [[]|].
Qed.

Lemma find_fmap {A} (P : A → Prop) `{∀ x, Decision (P x)} (f : A → A) (l : list A) :
  (∀ x, P (f x) ↔ P x) → find P (f <$> l) = f <$> find P l.
Proof.
  intros Hf. unfold find. rewrite list_find_fmap.
  rewrite (list_find_ext (P ∘ f) P) by apply Hf.
  by destruct (list_find P l) as [[]|].
Qed.

Lemma find_ext {A} (P Q : A → Prop) `{∀ x, Decision (P x)} `{∀ x, Decision (Q x)}
    (l : list A) :
  (∀ x, P x ↔ Q x) → find P l = find Q l.
Proof. intros HPQ. unfold find. by rewrite (list_find_ext P Q). Qed.

Lemma find_cons {A} (P : A → Prop) `{∀ x, Decision (P x)} (x : A) (l : list A) :
  find P (x :: l) = if decide (P x) then Some x else find P l.
Proof.
  unfold find. cbn. case_decide; [done|]. by destruct (list_find P l) as [[]|].
Qed.

(** X14: [addMessageToSession] puts the message at the end of every session
    with the given id and touches nothing else: the sessions keep their
    number, order, ids, names and dates, and the rest of the state stays; for
    an id no session has, nothing changes at all. *)
Theorem addMessageToSession_appends sessionId message prev :
  let next := addMessageToSession sessionId message prev in
  (ChatSession.id <$> sessions next = ChatSession.id <$> sessions prev)
  ∧ (∀ i s, sessions prev !! i = Some s →
       ∃ s', sessions next !! i = Some s'
             ∧ ChatSession.name s' = ChatSession.name s
             ∧ ChatSession.createdAt s' = ChatSession.createdAt s
             ∧ ChatSession.messages s' =
                 if decide (ChatSession.id s = sessionId)
                 then ChatSession.messages s ++ [message]
                 else ChatSession.messages s)
  ∧ currentSessionId next = currentSessionId prev
  ∧ apiKeys next = apiKeys prev
  ∧ customApiConfigs next = customApiConfigs prev
  ∧ (Forall (λ s, ChatSession.id s ≠ sessionId) (sessions prev) → next = prev).
Proof.
  cbv zeta. split_and!; try done.
  - cbn. rewrite <- list_fmap_compose. apply list_fmap_ext. intros _ s _.
    unfold compose, append_message. by case_bool_decide.
  - intros i s Hi. cbn. rewrite list_lookup_fmap, Hi. cbn. eexists. split; [done|].
    unfold append_message. by case_bool_decide; case_decide.
  - intros Hall. destruct prev as [ss cur keys cfgs]. unfold addMessageToSession. cbn in *.
    f_equal. induction Hall as [|s ss Hs _ IH]; [done|]. cbn. rewrite IH. f_equal.
    unfold append_message. by rewrite bool_decide_eq_false_2.
Qed.

(** X15: [createNewSession] adds one empty session at the end and makes its
    id the current one, so the current id then names a session of the list.
    Looking that id up gives the new session unless an older session has the
    same id (made in the same millisecond), which then comes first. *)
Theorem createNewSession_current sessions_seen now now' prev :
  let next := createNewSession sessions_seen now now' prev in
  let newSession :=
    {| ChatSession.id := "session-" +:+ pretty now;
       ChatSession.name := "Chat " +:+ pretty (length sessions_seen + 1);
       ChatSession.messages := [];
       ChatSession.createdAt := now' |} in
  sessions next = sessions prev ++ [newSession]
  ∧ currentSessionId next = Some (ChatSession.id newSession)
  ∧ truthy_string (currentSessionId next) = true
  ∧ (∃ s, s ∈ sessions next ∧ Some (ChatSession.id s) = currentSessionId next)
  ∧ find (λ s, Some (ChatSession.id s) = currentSessionId next) (sessions next)
    = match find (λ s, ChatSession.id s = "session-" +:+ pretty now) (sessions prev) with
      | Some older => Some older
      | None => Some newSession
      end.
Proof.
  cbv zeta. split_and!; try done.
  - eexists. split; [|done]. cbn. apply elem_of_app. right. by left.
  - cbn [createNewSession sessions currentSessionId ChatSession.id].
    rewrite (find_ext _ (λ s, ChatSession.id s = "session-" +:+ pretty now)).
    2:{ intros s. split; [by intros [= ->] | by intros ->]. }
    destruct (find _ (sessions prev)) as [older|] eqn:Hf.
    + by apply find_app_l.
    + rewrite find_app_r by done. rewrite find_cons. by rewrite decide_True.
Qed.

(** X16: after the state is loaded, the current session id names a session
    of the list; there is no current session only when the storage holds an
    empty list of sessions, and then no session is made either.  With no
    sessions in the storage, a first session "Chat 1" is made. *)
Theorem load_current stored now now' :
  let st := load stored now now' in
  match currentSessionId st with
  | Some id => ∃ s, s ∈ sessions st ∧ ChatSession.id s = id
  | None => sessions st = [] ∧ storedSessions stored = Some []
  end
  ∧ (storedSessions stored = None →
       sessions st = [ {| ChatSession.id := "session-" +:+ pretty now;
                          ChatSession.name := "Chat 1";
                          ChatSession.messages := [];
                          ChatSession.createdAt := now' |} ]).
Proof.
  cbv zeta. unfold load. cbv zeta.
  destruct (storedSessions stored) as [parsed|] eqn:Hs; cbn.
  - split; [|done].
    destruct (truthy_string (storedCurrentSessionId stored)
              && bool_decide (is_Some (find _ parsed))) eqn:Hcur.
    + apply andb_true_iff in Hcur as [Ht Hfound].
      apply bool_decide_eq_true_1 in Hfound as [s Hfound].
      apply find_Some in Hfound as [Hin Hid]. cbn.
      destruct (storedCurrentSessionId stored) as [id|]; [|done].
      exists s. split; [done|]. congruence.
    + destruct parsed as [|first rest]; cbn.
      * by destruct (storedKeys stored), (storedCustomConfigs stored).
      * exists first. split; [by left | done].
  - split.
    + eexists. split; [|done]. cbn.
      destruct (storedKeys stored), (storedCustomConfigs stored); cbn; by left.
    + intros _. by destruct (storedKeys stored), (storedCustomConfigs stored).
Qed.

(** X17: what the effects write, the next load reads back to the same
    state, provided the current id is not empty and names a session, or there
    is neither a session nor a current id.  A state with sessions but no
    current id comes back with the first session as the current one. *)
Theorem load_persist st now now' :
  ((∃ s, s ∈ sessions st ∧ Some (ChatSession.id s) = currentSessionId st
         ∧ ChatSession.id s ≠ "")
   ∨ (sessions st = [] ∧ currentSessionId st = None) →
   load (persist st) now now' = st)
  ∧ (∀ first rest, sessions st = first :: rest → currentSessionId st = None →
       currentSessionId (load (persist st) now now') = Some (ChatSession.id first)).
Proof.
  destruct st as [ss cur keys cfgs]. unfold load, persist. cbn. split.
  - intros [(s & Hin & Hcur & Hne)|[-> ->]]; [|reflexivity].
    subst cur. rewrite truthy_string_true by done. cbn.
    assert (bool_decide
              (is_Some (find (λ s0, Some (ChatSession.id s0) = Some (ChatSession.id s)) ss))
            = true) as ->; [|by rewrite (bool_decide_eq_false_2 _ Hne)].
    apply bool_decide_eq_true_2.
    destruct (find (λ s0, Some (ChatSession.id s0) = Some (ChatSession.id s)) ss) eqn:Hf;
      [by eauto|].
    apply find_None in Hf. rewrite Forall_forall in Hf. by destruct (Hf s Hin).
  - intros first rest -> ->. reflexivity.
Qed.

Lemma with_apiKey_names key c :
  Config.id (with_apiKey key c) = Config.id c
  ∧ Config.name (with_apiKey key c) = Config.name c
  ∧ Config.apiKey (with_apiKey key c) = key.
Proof. done. Qed.

(** X18: a key written with [updateApiKey] is the key [getApiKey] reads for
    that provider, as long as no custom configuration merely has the provider
    as its name. *)
Theorem updateApiKey_getApiKey st provider key :
  (∀ c, c ∈ customApiConfigs st → Config.name c = provider → Config.id c = provider) →
  getApiKey (updateApiKey (customApiConfigs st) provider key st) provider = Some key.
Proof.
  intros Hnames. unfold updateApiKey, getApiKey. case_bool_decide as Hcustom; cbn.
  - rewrite find_fmap.
    2:{ intros c. case_bool_decide; [|done]. by destruct c. }
    destruct (find _ (customApiConfigs st)) as [c|] eqn:Hf; cbn.
    + apply find_Some in Hf as [Hin Hc].
      assert (Config.id c = provider) as Hid by (destruct Hc; auto).
      by rewrite bool_decide_eq_true_2.
    + apply find_None in Hf. apply Exists_exists in Hcustom as (c & Hin & Hid).
      rewrite Forall_forall in Hf. destruct (Hf c Hin). by left.
  - assert (find (λ c, Config.id c = provider ∨ Config.name c = provider)
              (customApiConfigs st) = None) as ->.
    { apply find_None, Forall_forall. intros c Hin [Hid|Hname].
      - apply Hcustom, Exists_exists. by eauto.
      - apply Hcustom, Exists_exists. by eauto. }
    apply lookup_insert_eq.
Qed.

(** X19: a custom configuration that is found under a provider's name
    before any with that id hides every key written for that provider:
    after [updateApiKey], [getApiKey] still gives that configuration's own
    key. *)
Theorem updateApiKey_shadowed st provider key c :
  getCustomApiConfig st provider = Some c → Config.id c ≠ provider →
  getApiKey (updateApiKey (customApiConfigs st) provider key st) provider
  = Some (Config.apiKey c)
  ∧ getApiKey st provider = Some (Config.apiKey c).
Proof.
  unfold getCustomApiConfig. intros Hf Hid. unfold updateApiKey, getApiKey. rewrite Hf.
  split; [|done]. case_bool_decide as Hcustom; cbn; [|by rewrite Hf].
  rewrite find_fmap.
  2:{ intros c'. case_bool_decide; [|done]. by destruct c'. }
  rewrite Hf. cbn. by rewrite bool_decide_eq_false_2.
Qed.

(** X20: [removeCustomApiConfig] leaves no configuration with the given id
    and keeps all the others, in order.  A lookup of that id afterwards still
    succeeds when a remaining configuration has it as its name. *)
Theorem removeCustomApiConfig_lookup configId prev :
  let next := removeCustomApiConfig configId prev in
  Forall (λ c, Config.id c ≠ configId) (customApiConfigs next)
  ∧ (∀ c, c ∈ customApiConfigs next ↔ c ∈ customApiConfigs prev ∧ Config.id c ≠ configId)
  ∧ customApiConfigs next `sublist_of` customApiConfigs prev
  ∧ removeCustomApiConfig configId next = next
  ∧ getCustomApiConfig next configId
    = find (λ c, Config.name c = configId ∧ Config.id c ≠ configId) (customApiConfigs prev).
Proof.
  cbv zeta. unfold removeCustomApiConfig, getCustomApiConfig. cbn. split_and!.
  - apply Forall_forall. by intros c [? _]%list_elem_of_filter.
  - intros c. rewrite list_elem_of_filter. tauto.
  - apply sublist_filter.
  - f_equal. apply filter_all, Forall_forall. by intros c [? _]%list_elem_of_filter.
  - induction (customApiConfigs prev) as [|c cs IH]; [done|].
    rewrite (find_cons _ c cs). destruct (decide (Config.id c = configId)) as [Hid|Hid].
    + rewrite filter_cons_False by (intros ?; done).
      rewrite decide_False by (intros [_ ?]; done). apply IH.
    + rewrite filter_cons_True by done. rewrite find_cons.
      destruct (decide (Config.name c = configId)) as [Hname|Hname].
      * rewrite !decide_True by auto. done.
      * rewrite !decide_False by (intros ?; tauto). apply IH.
Qed.

(** X21: [updateCustomApiConfig] replaces every configuration that has the
    id of the one given and nothing else: the ids stay as they were, in
    order, and when no configuration has that id the state does not change. *)
Theorem updateCustomApiConfig_replaces updatedConfig prev :
  let next := updateCustomApiConfig updatedConfig prev in
  Config.id <$> customApiConfigs next = Config.id <$> customApiConfigs prev
  ∧ (∀ i c, customApiConfigs prev !! i = Some c →
       customApiConfigs next !! i
       = Some (if decide (Config.id c = Config.id updatedConfig) then updatedConfig else c))
  ∧ (Forall (λ c, Config.id c ≠ Config.id updatedConfig) (customApiConfigs prev) →
       next = prev).
Proof.
  cbv zeta. unfold updateCustomApiConfig. cbn. split_and!.
  - rewrite <- list_fmap_compose. apply list_fmap_ext. intros _ c _. unfold compose.
    by case_bool_decide.
  - intros i c Hi. rewrite list_lookup_fmap, Hi. cbn. by case_bool_decide; case_decide.
  - intros Hall. destruct prev as [ss cur keys cfgs]. cbn in *. f_equal.
    induction Hall as [|c cs Hc _ IH]; [done|]. cbn. rewrite IH.
    by rewrite bool_decide_eq_false_2.
Qed.

(** X22: [addCustomApiConfig] puts the new configuration, under its new
    id, at the end: whatever id or name resolved to a configuration before
    resolves to the same one after, and the new id resolves to the new
    configuration when nothing had it as id or name. *)
Theorem addCustomApiConfig_lookup now suffix configData prev :
  let next := addCustomApiConfig now suffix configData prev in
  let newId := "custom-" +:+ pretty now +:+ "-" +:+ suffix in
  customApiConfigs next = customApiConfigs prev ++ [with_id newId configData]
  ∧ (∀ configIdOrName c,
       getCustomApiConfig prev configIdOrName = Some c →
       getCustomApiConfig next configIdOrName = Some c)
  ∧ (getCustomApiConfig prev newId = None →
       getCustomApiConfig next newId = Some (with_id newId configData)).
Proof.
  cbv zeta. unfold addCustomApiConfig, getCustomApiConfig. cbn. split_and!.
  - done.
  - intros x c Hf. by apply find_app_l.
  - intros Hf. rewrite find_app_r by done. rewrite find_cons.
    rewrite decide_True; [done|]. by left.
Qed.

End StoreFacts.

(** * The chat page *)

Section PageFacts.

Variables (t : string → string) (trim : string → string).

Implicit Types (st : AppState) (pg : PageState) (req : RequestBody) (stub : Provider).

#[local] Arguments find : simpl never.
#[local] Arguments addMessageToSession : simpl never.
#[local] Arguments getCustomApiConfig : simpl never.
#[local] Arguments getApiKey : simpl never.
#[local] Arguments POST : simpl never.
#[local] Arguments declined_message : simpl never.

Lemma getApiKey_without_config st provider :
  getCustomApiConfig st provider = None → getApiKey st provider = apiKeys st !! provider.
Proof. unfold getCustomApiConfig, getApiKey. by intros ->. Qed.

Lemma declined_message_envelope status statusText message :
  declined_message t status statusText (Returned (JObj {[ "error" := JStr message ]}))
  = message.
Proof.
  unfold declined_message. cbn. unfold has. by rewrite own_singleton.
Qed.


Lemma POST_response stub req :
  (∃ aiMessageText data, (POST stub req).2 = success aiMessageText data)
  ∨ (∃ message code, (POST stub req).2 = error_response message code
                     ∧ (code = 400 ∨ code = 500)).
Proof.
  destruct (POST_shape req) as [(message & H)|(who & i & provider & Hp & H)].
  - right. rewrite H. by eauto.
  - rewrite H. destruct (stub i) as [data|message] eqn:Hstub.
    + left. rewrite reply_parsed with (data := data) by done. by eauto.
    + right. rewrite reply_failed with (message := message) by done. by eauto.
Qed.

Lemma relay_success stub statusText req aiMessageText data :
  (POST stub req).2 = success aiMessageText data →
  relay stub statusText req = Answered (Returned (Some aiMessageText)).
Proof.
  intros H. unfold relay, over_http. rewrite H. cbn.
  rewrite bool_decide_eq_true_2 by lia. by simplify_map_eq.
Qed.

Lemma relay_error stub statusText req message code :
  (POST stub req).2 = error_response message code → code = 400 ∨ code = 500 →
  relay stub statusText req
  = Declined code statusText (Returned (JObj {[ "error" := JStr message ]})).
Proof.
  intros H Hcode. unfold relay, over_http. rewrite H. cbn.
  by rewrite bool_decide_eq_false_2 by lia.
Qed.

Lemma error_response_inj message code message' code' :
  error_response message code = error_response message' code' →
  message = message' ∧ code = code'.
Proof.
  intros H. pose proof (f_equal status H) as Hcode.
  pose proof (f_equal (λ r, payload r !! "error") H) as Hpayload.
  unfold error_response in Hcode, Hpayload. cbn [status payload] in Hcode, Hpayload.
  rewrite !lookup_singleton_eq in Hpayload. split; congruence.
Qed.

Lemma reply_status who stub i provider isCustomProvider customApiConfig :
  status (reply who stub i provider isCustomProvider customApiConfig).2 = 200
  ∨ status (reply who stub i provider isCustomProvider customApiConfig).2 = 500.
Proof.
  unfold reply. cbn. destruct (stub i); [|by right].
  destruct (extract _ _ _ _); by auto.
Qed.

Lemma toWire_history (history : list Message.t) :
  toApiMessage <$> (toWire <$> history)
  = (λ m, {| role := match Message.sender m with
                     | from_user => user
                     | from_ai => assistant
                     end;
             content := Message.text m |}) <$> history.
Proof.
  rewrite <- list_fmap_compose. apply list_fmap_ext. intros _ m _.
  unfold compose, toApiMessage, toWire. cbn. by destruct (Message.sender m).
Qed.

(** A message is being sent: there is input, a current session and an
    active provider, and no other message is under way. *)
Section Sending.

Variables (st : AppState) (pg : PageState) (now : nat → Z).
Variables (sessionId provider : string).

Hypothesis Hinput : trim (userInput pg) ≠ "".
Hypothesis Hsession : currentSessionId st = Some sessionId.
Hypothesis Hsession_ne : sessionId ≠ "".
Hypothesis Hprovider : activeProvider pg = Some provider.
Hypothesis Hprovider_ne : provider ≠ "".
Hypothesis Hidle : isLoading pg = false.

Lemma handleSendMessage_run backend :
  handleSendMessage t trim st pg now backend =
    let exchanged :=
      exchange_with_relay t st provider (activeModel pg)
        (history_for_api st sessionId (user_message pg now)) backend in
    {| posted := exchanged.1;
       store := addMessageToSession sessionId (answer_message t now exchanged.2)
                  (addMessageToSession sessionId (user_message pg now) st);
       page := {| userInput := ""; isLoading := false;
                  activeProvider := activeProvider pg;
                  activeModel := activeModel pg |} |}.
Proof.
  unfold handleSendMessage. rewrite Hsession, Hprovider, Hidle.
  rewrite !truthy_string_true by done. cbn. by destruct (exchange_with_relay _ _ _ _ _ _).
Qed.

Lemma answer_message_sender result : Message.sender (answer_message t now result) = from_ai.
Proof. by destruct result. Qed.

(** X23: sending a message leaves, in every session with the current id,
    the message typed (as typed, not trimmed) followed by exactly one message
    from the AI, whether the exchange succeeded or failed; the other sessions
    are as before, at most one request was posted, the input box is empty and
    the page is no longer loading. *)
Theorem handleSendMessage_transcript backend :
  let sent := handleSendMessage t trim st pg now backend in
  ∃ answer,
    Message.sender answer = from_ai
    ∧ Message.text (user_message pg now) = userInput pg
    ∧ (∀ i s, sessions st !! i = Some s →
         ∃ s', sessions (store sent) !! i = Some s'
               ∧ ChatSession.id s' = ChatSession.id s
               ∧ ChatSession.messages s' =
                   if decide (ChatSession.id s = sessionId)
                   then ChatSession.messages s ++ [user_message pg now; answer]
                   else ChatSession.messages s)
    ∧ length (sessions (store sent)) = length (sessions st)
    ∧ (length (posted sent) ≤ 1)%nat
    ∧ userInput (page sent) = "" ∧ isLoading (page sent) = false.
Proof.
  cbv zeta. rewrite handleSendMessage_run. cbv zeta. cbn [posted store page].
  exists (answer_message t now
            (exchange_with_relay t st provider (activeModel pg)
               (history_for_api st sessionId (user_message pg now)) backend).2).
  split_and!; [apply answer_message_sender | done | | | | done | done].
  - intros i s Hi. unfold addMessageToSession. cbn.
    rewrite !list_lookup_fmap, Hi. cbn. eexists. split; [reflexivity|].
    unfold append_message. case_decide as Hid.
    + rewrite (bool_decide_eq_true_2 (ChatSession.id s = sessionId)) by done. cbn.
      rewrite (bool_decide_eq_true_2 (ChatSession.id s = sessionId)) by done. cbn.
      by rewrite <- app_assoc.
    + rewrite (bool_decide_eq_false_2 (ChatSession.id s = sessionId)) by done.
      by rewrite (bool_decide_eq_false_2 (ChatSession.id s = sessionId)) by done.
  - unfold addMessageToSession. cbn. by rewrite !length_fmap.
  - unfold exchange_with_relay. cbv zeta. by case_match; cbn; lia.
Qed.

Lemma history_for_api_last message :
  ∃ earlier, history_for_api st sessionId message = earlier ++ [message].
Proof.
  unfold history_for_api. destruct (find _ _) as [s|]; [by eauto|]. by exists [].
Qed.

(** X24: for a provider that is not named like a member of
    [Object.prototype], every request the page posts has the provider, a
    history that ends with the message typed, and either a custom
    configuration with a key and no [apiKey], or an [apiKey] that is not empty
    and no configuration; so the relay never answers it "Missing provider or
    messages" or "Missing apiKey". *)
Theorem handleSendMessage_request backend req :
  provider ∉ Object_prototype_members →
  req ∈ posted (handleSendMessage t trim st pg now backend) →
  Request.provider req = Some provider
  ∧ (∃ earlier, Request.messages req
                = Some (toWire <$> earlier ++ [user_message pg now]))
  ∧ ((∃ cfg, Request.customApiConfig req = Some cfg ∧ Request.apiKey req = None
             ∧ Config.apiKey cfg ≠ "")
     ∨ (Request.customApiConfig req = None
        ∧ ∃ key, Request.apiKey req = Some key ∧ key ≠ ""))
  ∧ ∀ stub,
      (POST stub req).2 ≠ error_response "Missing provider or messages" 400
      ∧ (POST stub req).2 ≠ error_response "Missing apiKey" 400.
Proof.
  intros _. rewrite handleSendMessage_run. cbv zeta. cbn [posted].
  unfold exchange_with_relay. cbv zeta.
  destruct (history_for_api_last (user_message pg now)) as (earlier & ->).
  destruct (getCustomApiConfig st provider) as [cfg|] eqn:Hcfg.
  - destruct (decide (Config.apiKey cfg = "")) as [Hkey|Hkey_ne].
    { rewrite Hkey. cbn. by intros ?%elem_of_nil. }
    rewrite (truthy_string_true (Config.apiKey cfg)) by done. cbn [negb fst].
    intros ->%list_elem_of_singleton. cbn.
    split_and!; [done | by eauto | by left; eauto |].
    intros stub.
    set (req := {| Request.provider := Some provider |}).
    destruct (decide (Config.id cfg = provider)) as [Hid|Hid].
    + rewrite (POST_custom stub req provider (toWire <$> earlier ++ [user_message pg now]) cfg)
        by done.
      split; intros Heq; apply (f_equal status) in Heq;
        by destruct (reply_status Custom stub
                       (custom_init cfg
                          (toApiMessage <$> (toWire <$> earlier ++ [user_message pg now]))
                          (Request.model req))
                       provider true (Some cfg)) as [H|H]; rewrite H in Heq.
    + rewrite (POST_configuration_error stub req provider
                 (toWire <$> earlier ++ [user_message pg now]) cfg) by done.
      split; by intros [[=] _]%error_response_inj.
  - rewrite (getApiKey_without_config st provider Hcfg).
    destruct (apiKeys st !! provider) as [key|] eqn:Hkey;
      [|cbn; by intros ?%elem_of_nil].
    destruct (decide (key = "")) as [->|Hkey_ne].
    { cbn. by intros ?%elem_of_nil. }
    rewrite (truthy_string_true key) by done. cbn [negb fst].
    intros ->%list_elem_of_singleton. cbn.
    split_and!; [done | by eauto | by right; eauto |].
    intros stub.
    set (req := {| Request.provider := Some provider |}).
    rewrite (POST_builtin stub req provider (toWire <$> earlier ++ [user_message pg now]) key)
      by done.
    cbv zeta.
    repeat case_bool_decide;
      try (split; intros Heq; apply (f_equal status) in Heq;
           match type of Heq with
           | status (reply ?who ?stub ?i ?p ?c ?o).2 = _ =>
               by destruct (reply_status who stub i p c o) as [Hst|Hst]; rewrite Hst in Heq
           end).
    split; by intros [[=] _]%error_response_inj.
Qed.

(** X25: when the active provider is found as the name of a custom
    configuration whose id is another, the page posts that configuration
    under the provider's name; the relay then calls no one and answers 400
    "Provider configuration error", and that is what the chat shows. *)
Theorem handleSendMessage_named_config stub statusText cfg :
  getCustomApiConfig st provider = Some cfg →
  Config.id cfg ≠ provider → Config.apiKey cfg ≠ "" →
  let sent := handleSendMessage t trim st pg now (relay stub statusText) in
  ∃ req,
    posted sent = [req]
    ∧ Request.provider req = Some provider
    ∧ Request.customApiConfig req = Some cfg
    ∧ POST stub req = ([], error_response "Provider configuration error" 400)
    ∧ store sent
      = addMessageToSession sessionId
          (answer_message t now (Thrown "Provider configuration error"))
          (addMessageToSession sessionId (user_message pg now) st).
Proof.
  intros Hcfg Hid Hkey. cbv zeta. rewrite handleSendMessage_run. cbv zeta.
  unfold exchange_with_relay. cbv zeta. rewrite Hcfg.
  rewrite (truthy_string_true (Config.apiKey cfg)) by done. cbn [negb fst snd posted store].
  set (req := {| Request.provider := Some provider |}).
  assert (POST stub req = ([], error_response "Provider configuration error" 400)) as HPOST.
  { by apply (POST_configuration_error stub req provider
                (toWire <$> history_for_api st sessionId (user_message pg now)) cfg). }
  exists req. split_and!; [done..|].
  rewrite (relay_error stub statusText req "Provider configuration error" 400)
    by (rewrite ?HPOST; auto).
  by rewrite declined_message_envelope.
Qed.

(** X26: when no custom configuration has the active provider as id or
    name, no key that is not empty is stored for it, and it is not named like
    a member of [Object.prototype], nothing is posted and the chat shows that
    the key is not configured. *)
Theorem handleSendMessage_no_key backend :
  provider ∉ Object_prototype_members →
  getCustomApiConfig st provider = None →
  apiKeys st !! provider = None ∨ apiKeys st !! provider = Some "" →
  let sent := handleSendMessage t trim st pg now backend in
  posted sent = []
  ∧ store sent
    = addMessageToSession sessionId
        (answer_message t now
           (Thrown (t "API key for" +:+ " " +:+ provider +:+ " "
                      +:+ t "is not configured" +:+ ".")))
        (addMessageToSession sessionId (user_message pg now) st).
Proof.
  intros _ Hcfg Hkey. cbv zeta. rewrite handleSendMessage_run. cbv zeta.
  unfold exchange_with_relay. cbv zeta. rewrite Hcfg.
  rewrite (getApiKey_without_config st provider Hcfg).
  by destruct Hkey as [-> | ->].
Qed.

(** X27: what the chat shows of the relay's response to a request it
    posted: the text under [aiResponse], or "Error: No response text from AI"
    (translated) when that text is empty; and for a 400 or 500, "Error"
    (translated), a colon and the relay's error message. *)
Theorem handleSendMessage_shows stub statusText req :
  let sent := handleSendMessage t trim st pg now (relay stub statusText) in
  posted sent = [req] →
  ∃ answer,
    store sent
    = addMessageToSession sessionId answer
        (addMessageToSession sessionId (user_message pg now) st)
    ∧ (∀ aiMessageText data,
         (POST stub req).2 = success aiMessageText data →
         answer = answer_message t now
                    (Returned (if bool_decide (aiMessageText = "")
                               then t "Error: No response text from AI"
                               else aiMessageText)))
    ∧ (∀ message code,
         (POST stub req).2 = error_response message code →
         answer = answer_message t now (Thrown message)
         ∧ Message.text answer = t "Error" +:+ ": " +:+ message).
Proof.
  cbv zeta. rewrite handleSendMessage_run. cbv zeta. cbn [posted store].
  intros Hposted. eexists. split; [reflexivity|].
  revert Hposted. unfold exchange_with_relay. cbv zeta.
  destruct (negb (truthy_string _)); [done|]. cbn [fst snd]. intros [= <-].
  set (req := {| Request.provider := Some provider |}).
  split.
  - intros aiMessageText data Hsuccess.
    rewrite (relay_success stub statusText req aiMessageText data Hsuccess).
    unfold truthy_string. cbn. by case_bool_decide.
  - intros message code Herror.
    assert (code = 400 ∨ code = 500) as Hcode.
    { destruct (POST_response stub req) as [(a & d & H)|(m' & c' & H & Hc)].
      - rewrite H in Herror. apply (f_equal (λ r, payload r !! "error")) in Herror.
        unfold success, error_response in Herror. cbn in Herror.
        by simplify_map_eq.
      - rewrite H in Herror. by apply error_response_inj in Herror as [_ <-]. }
    rewrite (relay_error stub statusText req message code Herror Hcode).
    by rewrite declined_message_envelope.
Qed.

(** X29: the history the page posts is the messages the current session
    had, in order, and the message typed at the end, or that message alone
    when no session has the current id; each goes with its sender and text and
    nothing else, so that the relay reads the user's messages as [user] turns
    and the AI's as [assistant] turns; and a model goes along only when one is
    chosen. *)
Theorem handleSendMessage_history backend req :
  req ∈ posted (handleSendMessage t trim st pg now backend) →
  let earlier :=
    match find (λ s, ChatSession.id s = sessionId) (sessions st) with
    | Some currentSession => ChatSession.messages currentSession
    | None => []
    end in
  ∃ history,
    Request.messages req = Some history
    ∧ history = toWire <$> earlier ++ [user_message pg now]
    ∧ Forall (λ m, others m = ∅) history
    ∧ toApiMessage <$> history
      = (λ m, {| role := match Message.sender m with
                         | from_user => user
                         | from_ai => assistant
                         end;
                 content := Message.text m |}) <$> earlier ++ [user_message pg now]
    ∧ Request.model req
      = (if truthy_string (activeModel pg) then activeModel pg else None).
Proof.
  rewrite handleSendMessage_run. cbv zeta. cbn [posted].
  unfold exchange_with_relay. cbv zeta.
  destruct (negb (truthy_string _)); [by intros ?%elem_of_nil|]. cbn [fst].
  intros ->%list_elem_of_singleton. cbn [Request.messages Request.model].
  assert (history_for_api st sessionId (user_message pg now)
          = match find (λ s, ChatSession.id s = sessionId) (sessions st) with
            | Some currentSession => ChatSession.messages currentSession
            | None => []
            end ++ [user_message pg now]) as ->.
  { unfold history_for_api. by destruct (find _ _). }
  eexists. split_and!; [done | done | | apply toWire_history | done].
  apply Forall_fmap, Forall_forall. by intros m _.
Qed.

End Sending.

End PageFacts.

(** * The further properties at work *)

Lemma settle_error_message_witness :
  settle shown_as DeepSeek "" (Responded unauthorized)
  = Failed "DeepSeek API request failed with status 401: bad key".
Proof.
  apply (settle_error_message shown_as DeepSeek "" unauthorized
           (JObj {[ "error" := JObj {[ "message" := JStr "bad key" ]} ]})
           (JObj {[ "message" := JStr "bad key" ]}) "bad key");
    (reflexivity || discriminate).
Defined.

Lemma settle_unreadable_body_witness :
  settle shown_as Custom "mine" (Responded bad_gateway) = Failed "Body is unusable"
  ∧ settle shown_as Gemini "" (Responded bad_gateway)
    = Failed "Gemini API request failed with status 502: Bad Gateway".
Proof.
  split.
  - apply (settle_unreadable_body shown_as Custom "mine" bad_gateway
             "Unexpected token < in JSON at position 0"); [reflexivity..|exact I].
  - apply (settle_unreadable_body shown_as Gemini "" bad_gateway
             "Unexpected token < in JSON at position 0"); [reflexivity..|exact I].
Defined.

Lemma settle_null_body_witness :
  ∃ message,
    prop (Some JNull) "error" = Thrown message
    ∧ settle shown_as OpenAI "" (Responded null_reply) = Failed message.
Proof. apply (settle_null_body shown_as OpenAI "" null_reply); reflexivity. Defined.

Lemma settle_parsed_iff_witness :
  settle shown_as OpenAI "" (Responded unauthorized) ≠ Parsed JNull.
Proof.
  intros H.
  apply (settle_parsed_iff shown_as OpenAI "" (Responded unauthorized) JNull) in H
    as (response & [= <-] & Hok & _).
  discriminate Hok.
Defined.

Lemma POST_provider_status_witness :
  status (POST (λ i, settle shown_as OpenAI "" (Responded unauthorized))
            (reserved_request "openai")).2 = 500.
Proof.
  destruct (POST_provider_status shown_as
              (λ i, settle shown_as OpenAI "" (Responded unauthorized))
              (reserved_request "openai")
              {| adapter := OpenAI; init := openai_init "k" [toApiMessage question] None |}
              "" unauthorized) as [H _]; [reflexivity..|exact H].
Defined.

Lemma custom_body_members_witness :
  custom_body clashing_config [toApiMessage question] (Some "m1")
  = {[ "messages" := JStr "m1" ]}
  ∧ custom_body clashing_config [toApiMessage question] None
    = {[ "messages" := JArr [role_content (toApiMessage question)] ]}.
Proof.
  destruct (custom_body_members clashing_config [toApiMessage question] (Some "m1"))
    as [_ H]; [discriminate|].
  destruct (H "m1") as (_ & _ & _ & Hsame); [reflexivity | discriminate | discriminate |].
  destruct (custom_body_members clashing_config [toApiMessage question] None)
    as [Hnone _]; [discriminate|].
  split; [apply Hsame; reflexivity | apply Hnone; reflexivity].
Defined.

Lemma custom_headers_cases_witness :
  custom_headers clashing_config
  = <[ "X-API-Key" := "k" ]> {[ "Content-Type" := "application/json" ]}
  ∧ custom_headers clashing_config !! "Authorization" = None.
Proof.
  destruct (custom_headers_cases clashing_config) as [_ H].
  destruct (H "X-API-Key") as (Heq & Hauth & _);
    [reflexivity | discriminate | discriminate | discriminate |].
  split; [exact Heq | apply Hauth; discriminate].
Defined.

Lemma POST_anthropic_history_witness :
  ∃ sent,
    (POST (λ _, Failed "down") anthropic_request).1
    = [{| adapter := Anthropic;
          init := anthropic_init "k" [toApiMessage question] None |}]
    ∧ body (anthropic_init "k" [toApiMessage question] None) = JObj sent
    ∧ sent !! "system" = None.
Proof.
  destruct (POST_anthropic_history (λ _, Failed "down") anthropic_request "k" [question])
    as (sent & Hcalls & Hbody & Hsystem & _);
    [reflexivity | reflexivity | discriminate | reflexivity | discriminate |].
  exists sent. by split_and!.
Defined.

Lemma POST_custom_named_like_builtin_witness :
  (POST (λ _, Parsed openai_fixture) twin_request).2
  = success "Error: Could not parse AI response." openai_fixture.
Proof.
  destruct (POST_custom_named_like_builtin (λ _, Parsed openai_fixture) twin_request
              "gemini" [question] gemini_twin openai_fixture)
    as (_ & _ & _ & H);
    [reflexivity | discriminate | reflexivity | reflexivity | reflexivity
    | reflexivity | reflexivity |].
  apply H. reflexivity.
Defined.

Lemma POST_custom_fallback_order_witness :
  (POST (λ _, Parsed mixed_fixture) plain_request).2
  = success "Error: Could not parse AI response." mixed_fixture
  ∧ rule_anthropic mixed_fixture = Some "hi".
Proof.
  split; [|reflexivity].
  destruct (POST_custom_fallback_order (λ _, Parsed mixed_fixture) plain_request
              "c1" [question] empty_name_config mixed_fixture)
    as [H _];
    [reflexivity | discriminate | reflexivity | reflexivity | reflexivity | reflexivity
    | | reflexivity |].
  - intros Hin. repeat (apply elem_of_cons in Hin as [Hin|Hin]; [discriminate|]).
    by apply elem_of_nil in Hin.
  - apply H. reflexivity.
Defined.

Lemma addMessageToSession_appends_witness :
  (∃ s', sessions (addMessageToSession "session-2" greeting store_with_key) !! 1%nat = Some s'
         ∧ ChatSession.messages s' = [greeting])
  ∧ addMessageToSession "session-9" greeting store_with_key = store_with_key.
Proof.
  destruct (addMessageToSession_appends "session-2" greeting store_with_key)
    as (_ & H & _).
  destruct (H 1%nat chat2) as (s' & Hs' & _ & _ & Hmessages); [reflexivity|].
  destruct (addMessageToSession_appends "session-9" greeting store_with_key)
    as (_ & _ & _ & _ & _ & Hnone).
  split.
  - exists s'. split; [exact Hs' | exact Hmessages].
  - apply Hnone. repeat constructor; discriminate.
Defined.

Lemma load_current_witness :
  sessions (load {| storedKeys := None; storedCustomConfigs := None;
                    storedSessions := None; storedCurrentSessionId := None |} 5 6)
  = [ {| ChatSession.id := "session-5"; ChatSession.name := "Chat 1";
         ChatSession.messages := []; ChatSession.createdAt := 6 |} ].
Proof.
  destruct (load_current {| storedKeys := None; storedCustomConfigs := None;
                            storedSessions := None; storedCurrentSessionId := None |} 5 6)
    as [_ H].
  apply H. reflexivity.
Defined.

Lemma load_persist_witness :
  load (persist store_with_key) 5 6 = store_with_key
  ∧ currentSessionId (load (persist (setCurrentSessionId None store_with_key)) 5 6)
    = Some "session-1".
Proof.
  split.
  - destruct (load_persist store_with_key 5 6) as [H _]. apply H. left.
    exists chat1. split_and!; [by left | reflexivity | discriminate].
  - destruct (load_persist (setCurrentSessionId None store_with_key) 5 6) as [_ H].
    apply (H chat1 [chat2]); reflexivity.
Defined.

Lemma updateApiKey_getApiKey_witness :
  getApiKey (updateApiKey [] "openai" "k2" store_with_key) "openai" = Some "k2".
Proof.
  apply (updateApiKey_getApiKey store_with_key "openai" "k2").
  intros c Hin. by apply elem_of_nil in Hin.
Defined.

Lemma updateApiKey_shadowed_witness :
  getApiKey (updateApiKey [named_openai] "openai" "k2" store_shadowed) "openai" = Some "ck".
Proof.
  destruct (updateApiKey_shadowed store_shadowed "openai" "k2" named_openai) as [H _];
    [reflexivity | discriminate | exact H].
Defined.

Lemma updateCustomApiConfig_replaces_witness :
  customApiConfigs (updateCustomApiConfig (with_apiKey "new" named_openai) store_shadowed)
    !! 0%nat = Some (with_apiKey "new" named_openai)
  ∧ updateCustomApiConfig path_config store_shadowed = store_shadowed.
Proof.
  split.
  - destruct (updateCustomApiConfig_replaces (with_apiKey "new" named_openai) store_shadowed)
      as (_ & H & _).
    apply (H 0%nat named_openai). reflexivity.
  - destruct (updateCustomApiConfig_replaces path_config store_shadowed) as (_ & _ & H).
    apply H. repeat constructor; discriminate.
Defined.

Lemma addCustomApiConfig_lookup_witness :
  getCustomApiConfig (addCustomApiConfig 7 "abc1234" path_config store_shadowed) "openai"
  = Some named_openai
  ∧ getCustomApiConfig (addCustomApiConfig 7 "abc1234" path_config store_shadowed)
      "custom-7-abc1234"
    = Some (with_id "custom-7-abc1234" path_config).
Proof.
  destruct (addCustomApiConfig_lookup 7 "abc1234" path_config store_shadowed)
    as (_ & Hold & Hnew).
  split; [apply Hold | apply Hnew]; reflexivity.
Defined.


Lemma handleSendMessage_transcript_witness :
  (length (posted (handleSendMessage plain plain store_with_key typing clock
                     (λ _, Unreachable "offline"))) ≤ 1)%nat
  ∧ userInput (page (handleSendMessage plain plain store_with_key typing clock
                       (λ _, Unreachable "offline"))) = "".
Proof.
  destruct (handleSendMessage_transcript plain plain store_with_key typing clock
              "session-1" "openai") with (backend := λ _ : RequestBody, Unreachable "offline")
    as (answer & _ & _ & _ & _ & Hposted & Hinput & _);
    [discriminate | reflexivity | discriminate | reflexivity | discriminate | reflexivity |].
  split; [exact Hposted | exact Hinput].
Defined.

Lemma handleSendMessage_request_witness :
  Request.provider typed_request = Some "openai"
  ∧ (POST (λ _, Failed "down") typed_request).2 ≠ error_response "Missing apiKey" 400.
Proof.
  destruct (handleSendMessage_request plain plain store_with_key typing clock
              "session-1" "openai")
    with (backend := λ _ : RequestBody, Unreachable "offline") (req := typed_request)
    as (Hprovider & _ & _ & HPOST);
    [discriminate | reflexivity | discriminate | reflexivity | discriminate | reflexivity
    | apply (bool_decide_unpack _); exact I | by left |].
  split; [exact Hprovider | apply (HPOST (λ _, Failed "down"))].
Defined.

Lemma handleSendMessage_named_config_witness :
  ∃ req,
    posted (handleSendMessage plain plain store_shadowed typing clock
              (relay (λ _, Failed "unreachable") "Bad Request")) = [req]
    ∧ POST (λ _, Failed "unreachable") req
      = ([], error_response "Provider configuration error" 400).
Proof.
  destruct (handleSendMessage_named_config plain plain store_shadowed typing clock
              "session-1" "openai")
    with (stub := λ _ : FetchInit, Failed "unreachable") (statusText := "Bad Request")
         (cfg := named_openai)
    as (req & Hposted & _ & _ & HPOST & _);
    [discriminate | reflexivity | discriminate | reflexivity | discriminate | reflexivity
    | reflexivity | discriminate | discriminate |].
  exists req. split; [exact Hposted | exact HPOST].
Defined.

Lemma handleSendMessage_no_key_witness :
  posted (handleSendMessage plain plain store_without_key typing clock
            (λ _, Unreachable "offline")) = [].
Proof.
  destruct (handleSendMessage_no_key plain plain store_without_key typing clock
              "session-1" "openai") with (backend := λ _ : RequestBody, Unreachable "offline")
    as [H _];
    [discriminate | reflexivity | discriminate | reflexivity | discriminate | reflexivity
    | apply (bool_decide_unpack _); exact I | reflexivity | by left | exact H].
Defined.

Lemma handleSendMessage_history_witness :
  ∃ history,
    Request.messages typed_request = Some history
    ∧ toApiMessage <$> history
      = [ {| role := user; content := "hi" |}; {| role := user; content := "2+2?" |} ].
Proof.
  destruct (handleSendMessage_history plain plain store_with_key typing clock
              "session-1" "openai")
    with (backend := λ _ : RequestBody, Unreachable "offline") (req := typed_request)
    as (history & Hmessages & _ & _ & Hroles & _);
    [discriminate | reflexivity | discriminate | reflexivity | discriminate | reflexivity
    | by left |].
  exists history. split; [exact Hmessages | exact Hroles].
Defined.

Lemma handleSendMessage_shows_witness :
  ∃ answer,
    store (handleSendMessage plain plain store_with_key typing clock
             (relay (λ _, Parsed openai_fixture) "OK"))
    = addMessageToSession "session-1" answer
        (addMessageToSession "session-1" (user_message typing clock) store_with_key)
    ∧ Message.text answer = "hello".
Proof.
  destruct (handleSendMessage_shows plain plain store_with_key typing clock
              "session-1" "openai")
    with (stub := λ _ : FetchInit, Parsed openai_fixture) (statusText := "OK")
         (req := typed_request)
    as (answer & Hstore & Hsuccess & _);
    [discriminate | reflexivity | discriminate | reflexivity | discriminate | reflexivity
    | reflexivity |].
  exists answer. split; [exact Hstore|].
  rewrite (Hsuccess "hello" openai_fixture); reflexivity.
Defined.
